(** * Salto adapters: reference resolution, workflow deployment, reordering

    A shallow embedding of
    - the Salesforce reference-annotation filter
      (convertAnnotationsToTypeReferences, convertAnnotationsToFieldReferences
      and the filter's onFetch),
    - the Jira workflow deploy filter
      (isValidTransitionResponse, getTransitionsFromService, filter.deploy),
    - the deploy side of the Zendesk reorder ("ordered collection") filter,
      whose behaviour is fixed by the specification and by the automation
      reorder test-suite.

    JavaScript objects used as dictionaries are [gmap]s, arrays are lists,
    in-place mutation is written as a function from the old value to the new
    one, a thrown exception is a constructor of the result type.  Record sets
    are taken by value: every field belongs to one type, and an element that
    occurs twice in a record set counts as two records. *)

From Stdlib Require Import ZArith Ascii String.
From Stdlib Require Import Sorting.Permutation.
From stdpp Require Import base option list strings gmap fin_maps.

Set Default Proof Using "Type".
Set Warnings "-register-all".
Local Open Scope string_scope.

(** ** The element model shared by the three adapters *)

(** [new ElemID(adapter, typeName, idType, ...nameParts)]: the record of the
    arguments that the constructor is given. *)
Record ElemID : Type := mkElemID {
  adapter : string;
  typeName : string;
  idType : string;
  nameParts : list string;
}.

#[global] Instance ElemID_eq_dec : EqDecision ElemID.
Proof. solve_decision. Defined.

(** Values held by annotations and instances: primitives, arrays, nested
    objects and [ReferenceExpression]s.  [undefined] is the absence of a key
    in the enclosing map. *)
Inductive Value : Type :=
| VString (s : string)
| VNumber (n : Z)
| VBool (b : bool)
| VNull
| VList (items : list Value)
| VObject (members : list (string * Value))
| VRef (target : ElemID).

(** [_.isString]. *)
Definition isString (v : Value) : bool :=
  match v with VString _ => true | _ => false end.

(** [Array.isArray]. *)
Definition isArray (v : Value) : bool :=
  match v with VList _ => true | _ => false end.

Record Field : Type := mkField {
  field_annotations : gmap string Value;
}.

Inductive Element : Type :=
| ObjectType (id : ElemID) (annotations : gmap string Value)
             (fields : gmap string Field)
| InstanceElement (id : ElemID) (value : gmap string Value)
| PrimitiveType (id : ElemID).

Definition elemID (e : Element) : ElemID :=
  match e with
  | ObjectType id _ _ | InstanceElement id _ | PrimitiveType id => id
  end.

Definition isObjectType (e : Element) : bool :=
  match e with ObjectType _ _ _ => true | _ => false end.

Definition isInstanceElement (e : Element) : bool :=
  match e with InstanceElement _ _ => true | _ => false end.

(** A change is a tagged variant over the records it carries. *)
Inductive Change (T : Type) : Type :=
| AdditionChange (after : T)
| ModificationChange (before after : T)
| RemovalChange (before : T).
Arguments AdditionChange {T} after.
Arguments ModificationChange {T} before after.
Arguments RemovalChange {T} before.

Definition getChangeData {T} (change : Change T) : T :=
  match change with
  | AdditionChange after | ModificationChange _ after => after
  | RemovalChange before => before
  end.

Definition isAdditionChange {T} (change : Change T) : bool :=
  match change with AdditionChange _ => true | _ => false end.

Definition isModificationChange {T} (change : Change T) : bool :=
  match change with ModificationChange _ _ => true | _ => false end.

(** ** The Salesforce reference-annotation filter *)

Module ReferenceResolver.

(** Modelled from the spec: the constant [CUSTOM_OBJECT] of the adapter's
    constants file, the generic "custom object" kind. *)
Definition CUSTOM_OBJECT : string := "CustomObject".

(** Modelled from the spec: the constant [API_NAME_SEPARATOR] of the adapter's
    constants file, the fixed separator of [<container>.<member>]. *)
Definition API_NAME_SEPARATOR : string := ".".

(** [multiIndex.Index<[string, string], ElemID>]: [get(k1, k2)] is the lookup
    of the pair. *)
Abbreviation Index := (gmap (string * string) ElemID).

(** Modelled from the spec: [collections.array.makeArray] of lowerdash on a
    defined input.  Annotation values are scalar or sequence-valued: a
    sequence is taken as it is, a scalar as the sequence of one value. *)
Definition makeArray (v : Value) : list Value :=
  match v with
  | VList items => items
  | _ => [v]
  end.

(** [a ?? b] on lookups: [None] is [undefined]. *)
Definition nullish {A} (a b : option A) : option A :=
  match a with Some x => Some x | None => b end.

Definition resolveTypeReference (typeToElemID : Index) (ref : Value) : Value :=
  match ref with
  | VString s =>
      match nullish (typeToElemID !! (s, s))
                    (typeToElemID !! (CUSTOM_OBJECT, s)) with
      | Some referenceElemId => VRef referenceElemId
      | None => ref
      end
  | _ => ref
  end.

(** The right-hand side of the assignment in the type pass,
    [makeArray(field.annotations[name]).map(resolveTypeReference)]. *)
Definition typeRewrite (typeToElemID : Index) (v : Value) : Value :=
  VList (resolveTypeReference typeToElemID <$> makeArray v).

(** ** [String.prototype.split] with a string separator *)

Fixpoint splitFrom (sep : string) (skip : nat) (cur : string) (s : string)
  : list string :=
  match s with
  | EmptyString => [cur]
  | String c rest =>
      match skip with
      | S k => splitFrom sep k cur rest
      | O =>
          if String.prefix sep s
          then cur :: splitFrom sep (String.length sep - 1) "" rest
          else splitFrom sep 0 (cur +:+ String c "") rest
      end
  end.

(** [s.split(sep)]; with the empty separator JavaScript yields the code
    units of [s]. *)
Definition split (s sep : string) : list string :=
  match sep with
  | EmptyString => (λ c, String c "") <$> String.list_ascii_of_string s
  | _ => splitFrom sep 0 "" s
  end.

Definition resolveFieldReference (ref : Value) : Value :=
  match ref with
  | VString s =>
      match split s API_NAME_SEPARATOR with
      | [container; member] =>
          VRef (mkElemID "salesforce" container "field" [member])
      | _ => ref
      end
  | _ => ref
  end.

(** The body shared by the two passes on one field:
    [annotationNames.filter(name => field.annotations[name] !== undefined)
       .forEach(name => { field.annotations[name] = f(field.annotations[name]) })],
    run only on the fields that pass
    [annotationNames.some(name => field.annotations[name] !== undefined)].
    [defined] reads the own keys of the annotations; the test of the source
    agrees with it for every name but the ones that a plain object inherits,
    [objectPrototypeNames] below. *)
Definition defined (anns : gmap string Value) (name : string) : bool :=
  bool_decide (is_Some (anns !! name)).

Definition assignAnnotation (f : Value → Value)
    (anns : gmap string Value) (name : string) : gmap string Value :=
  match anns !! name with
  | Some v => <[name := f v]> anns
  | None => anns
  end.

Definition rewriteField (f : Value → Value) (annotationNames : list string)
    (field : Field) : Field :=
  let anns := field_annotations field in
  if existsb (defined anns) annotationNames
  then mkField (foldl (assignAnnotation f) anns
                      (List.filter (defined anns) annotationNames))
  else field.

Section Filter.

(** The predicates and accessors of the transformer module are parameters
    of the filter. *)
Variable isMetadataObjectType : Element → bool.
Variable isCustomObject : Element → bool.
Variable metadataType : Element → string.
Variable apiName : Element → string.

Definition isMetadataTypeOrCustomObject (elem : Element) : bool :=
  isMetadataObjectType elem || isCustomObject elem.

(** [awu(elements).filter(isObjectType).filter(isMetadataTypeOrCustomObject)
      .flatMap(obj => Object.values(obj.fields)).filter(...).forEach(...)]:
    the fields of the selected object types are updated in place, every other
    element is left as it is. *)
Definition rewriteElement (f : Value → Value) (annotationNames : list string)
    (elem : Element) : Element :=
  match elem with
  | ObjectType id annotations fields =>
      if isMetadataTypeOrCustomObject elem
      then ObjectType id annotations (rewriteField f annotationNames <$> fields)
      else elem
  | _ => elem
  end.

Definition convertAnnotationsToTypeReferences (elements : list Element)
    (typeToElemID : Index) (annotationNames : list string) : list Element :=
  rewriteElement (typeRewrite typeToElemID) annotationNames <$> elements.

Definition convertAnnotationsToFieldReferences (elements : list Element)
    (annotationNames : list string) : list Element :=
  rewriteElement resolveFieldReference annotationNames <$> elements.

(** The broader reference universe that the configuration supplies. *)
Variable referenceUniverse : list Element.

(** Modelled from the spec: [buildElementsSourceForFetch] of the filters'
    utilities, followed by [getAll].  The reference universe of a fetch is
    the fetched record set together with the records of the broader universe
    of the configuration. *)
Definition buildElementsSourceForFetch (elements : list Element)
  : list Element :=
  elements ++ referenceUniverse.

(** Modelled from the spec: [multiIndex.keyByAsync] (lowerdash) with the
    filter, key and map that [onFetch] passes: the index from (kind, natural
    key) to the stable identifier, a later record with the same key replacing
    an earlier one. *)
Definition keyByStep (index : Index) (obj : Element) : Index :=
  if isMetadataTypeOrCustomObject obj
  then <[(metadataType obj, apiName obj) := elemID obj]> index
  else index.

(** Modelled from the spec: the index that [multiIndex.keyByAsync] builds
    from [iter], starting from the empty index. *)
Definition keyBy (iter : list Element) : Index := foldl keyByStep ∅ iter.

(** The annotation names of the constants file. *)
Variables REFERENCE_TO FOREIGN_KEY_DOMAIN : string.
Variables SUMMARIZED_FIELD SUMMARY_FOREIGN_KEY CONTROLLING_FIELD : string.
Variables FIELD VALUE_FIELD : string.

Definition typeAnnotationNames : list string :=
  [REFERENCE_TO; FOREIGN_KEY_DOMAIN].

Definition fieldAnnotationNames : list string :=
  [SUMMARIZED_FIELD; SUMMARY_FOREIGN_KEY; CONTROLLING_FIELD; FIELD; VALUE_FIELD].

(** [filter.onFetch]; the result is the content of [elements] when the
    promise resolves. *)
Definition onFetch (elements : list Element) : list Element :=
  let referenceElements := buildElementsSourceForFetch elements in
  let typeToElemID := keyBy referenceElements in
  let elements1 :=
    convertAnnotationsToTypeReferences elements typeToElemID
      typeAnnotationNames in
  convertAnnotationsToFieldReferences elements1 fieldAnnotationNames.

(** The annotation [name] of the field [fieldName] of the [i]-th element. *)
Definition annotationAt (elements : list Element) (i : nat)
    (fieldName name : string) : option Value :=
  match elements !! i with
  | Some (ObjectType _ _ fields) =>
      match fields !! fieldName with
      | Some field => field_annotations field !! name
      | None => None
      end
  | _ => None
  end.

(** The elements whose fields a pass visits. *)
Definition visited (elements : list Element) (i : nat) : bool :=
  match elements !! i with
  | Some elem => isObjectType elem && isMetadataTypeOrCustomObject elem
  | None => false
  end.

(** *** One field *)

Lemma assignAnnotation_lookup f anns name n :
  assignAnnotation f anns name !! n
  = if decide (n = name) then f <$> anns !! n else anns !! n.
Proof.
  unfold assignAnnotation. case_decide as Hn.
  - subst n. destruct (anns !! name) as [v|] eqn:Hv; simpl.
    + by rewrite lookup_insert_eq.
    + by rewrite Hv.
  - destruct (anns !! name); [by rewrite lookup_insert_ne|done].
Qed.

Lemma foldl_assignAnnotation_lookup f names anns n :
  (∀ v, f (f v) = f v) →
  foldl (assignAnnotation f) anns names !! n
  = if decide (n ∈ names) then f <$> anns !! n else anns !! n.
Proof.
  intros Hf. revert anns.
  induction names as [|a names IH]; intros anns; cbn [foldl].
  - case_decide as Hin; [by apply elem_of_nil in Hin|done].
  - rewrite IH, assignAnnotation_lookup.
    destruct (decide (n = a)) as [->|Hna].
    + destruct (decide (a ∈ a :: names)) as [_|Hin];
        [|by destruct Hin; apply list_elem_of_here].
      case_decide; [|done].
      destruct (anns !! a); simpl; by rewrite ?Hf.
    + destruct (decide (n ∈ names)) as [Hin|Hin];
        destruct (decide (n ∈ a :: names)) as [Hin'|Hin']; try done.
      * destruct Hin'. by apply list_elem_of_further.
      * apply elem_of_cons in Hin' as [?|?]; contradiction.
Qed.

Lemma defined_spec anns name : defined anns name = true ↔ is_Some (anns !! name).
Proof. unfold defined. by rewrite bool_decide_eq_true. Qed.

(** What a pass leaves in each annotation of a field. *)
Lemma rewriteField_lookup f names field n :
  (∀ v, f (f v) = f v) →
  field_annotations (rewriteField f names field) !! n
  = if decide (n ∈ names) then f <$> field_annotations field !! n
    else field_annotations field !! n.
Proof.
  intros Hf. unfold rewriteField.
  destruct (existsb _ names) eqn:Hex; simpl.
  - rewrite foldl_assignAnnotation_lookup by done.
    destruct (decide (n ∈ names)) as [Hin|Hin].
    + destruct (field_annotations field !! n) as [v|] eqn:Hv.
      * rewrite decide_True; [done|].
        apply list_elem_of_In, filter_In. split; [by apply list_elem_of_In|].
        apply defined_spec. by rewrite Hv.
      * by case_decide.
    + rewrite decide_False; [done|].
      intros [? _]%list_elem_of_In%filter_In. by apply Hin, list_elem_of_In.
  - case_decide as Hin; [|done].
    destruct (field_annotations field !! n) as [v|] eqn:Hv; [|done].
    assert (existsb (defined (field_annotations field)) names = true) as Hex'.
    { apply existsb_exists. exists n. split; [by apply list_elem_of_In|].
      apply defined_spec. by rewrite Hv. }
    congruence.
Qed.

(** *** One pass over the record set *)

Lemma annotationAt_rewriteElement f names elements i fieldName n :
  (∀ v, f (f v) = f v) →
  annotationAt (rewriteElement f names <$> elements) i fieldName n
  = if visited elements i && bool_decide (n ∈ names)
    then f <$> annotationAt elements i fieldName n
    else annotationAt elements i fieldName n.
Proof.
  intros Hf. unfold annotationAt, visited. rewrite list_lookup_fmap.
  destruct (elements !! i) as [[id anns fields| |]|]; simpl; try done.
  destruct (isMetadataTypeOrCustomObject _) eqn:Hsel; simpl; [|done].
  rewrite lookup_fmap.
  destruct (fields !! fieldName) as [field|]; simpl.
  - rewrite rewriteField_lookup by done.
    destruct (decide (n ∈ names)) as [Hin|Hin].
    + by rewrite bool_decide_eq_true_2.
    + by rewrite bool_decide_eq_false_2.
  - by destruct (bool_decide _).
Qed.

Lemma resolveTypeReference_idemp typeToElemID v :
  resolveTypeReference typeToElemID (resolveTypeReference typeToElemID v)
  = resolveTypeReference typeToElemID v.
Proof.
  destruct v as [s| | | | | |]; simpl; try done.
  destruct (nullish _ _) eqn:Hl; simpl; [done|]. by rewrite Hl.
Qed.

Lemma resolveTypeReference_string (typeToElemID : Index) s :
  resolveTypeReference typeToElemID (VString s)
  = match typeToElemID !! (s, s) with
    | Some target => VRef target
    | None =>
        match typeToElemID !! (CUSTOM_OBJECT, s) with
        | Some target => VRef target
        | None => VString s
        end
    end.
Proof.
  unfold resolveTypeReference, nullish.
  by destruct (typeToElemID !! (s, s)).
Qed.

Lemma typeRewrite_idemp typeToElemID v :
  typeRewrite typeToElemID (typeRewrite typeToElemID v)
  = typeRewrite typeToElemID v.
Proof.
  unfold typeRewrite. simpl. f_equal.
  rewrite <- list_fmap_compose. apply list_fmap_ext.
  intros _ x _. apply resolveTypeReference_idemp.
Qed.

Lemma resolveFieldReference_idemp v :
  resolveFieldReference (resolveFieldReference v) = resolveFieldReference v.
Proof.
  destruct v as [s| | | | | |]; try done.
  unfold resolveFieldReference at 2.
  destruct (split s API_NAME_SEPARATOR) as [|a [|b [|c l]]] eqn:Hs;
    try done; unfold resolveFieldReference; by rewrite Hs.
Qed.

(** C1. In the type/foreign-key pass, a listed annotation defined on a field
    of a visited record is replaced by the sequence of its resolved values
    (the annotation itself when it is a scalar).  A string [s] is looked up
    first under the kind it names, [get(s, s)], and only if that is absent
    under the custom-object kind, [get(CUSTOM_OBJECT, s)]; the first hit is
    rewritten to a reference to the identifier found, and when both lookups
    are absent the string stays as it is.  The pass is a total function: no
    outcome is an error. *)
Theorem type_pass_lookup_order elements typeToElemID names i fieldName name s :
  visited elements i = true →
  name ∈ names →
  annotationAt elements i fieldName name = Some (VString s) →
  let after :=
    annotationAt
      (convertAnnotationsToTypeReferences elements typeToElemID names)
      i fieldName name in
  (∀ target, typeToElemID !! (s, s) = Some target →
     after = Some (VList [VRef target])) ∧
  (∀ target, typeToElemID !! (s, s) = None →
     typeToElemID !! (CUSTOM_OBJECT, s) = Some target →
     after = Some (VList [VRef target])) ∧
  (typeToElemID !! (s, s) = None →
     typeToElemID !! (CUSTOM_OBJECT, s) = None →
     after = Some (VList [VString s])).
Proof.
  intros Hvis Hin Hv after. subst after.
  unfold convertAnnotationsToTypeReferences.
  rewrite (annotationAt_rewriteElement (typeRewrite typeToElemID))
    by apply typeRewrite_idemp.
  rewrite Hvis, bool_decide_eq_true_2, Hv by done.
  change (typeRewrite typeToElemID <$> Some (VString s))
    with (Some (VList [resolveTypeReference typeToElemID (VString s)])).
  rewrite resolveTypeReference_string.
  repeat split.
  - intros target H1. by rewrite H1.
  - intros target H1 H2. by rewrite H1, H2.
  - intros H1 H2. by rewrite H1, H2.
Qed.

(** The same pass on a sequence-valued annotation: every member is resolved
    by the same two lookups. *)
Lemma type_pass_elementwise elements typeToElemID names i fieldName name v :
  visited elements i = true →
  name ∈ names →
  annotationAt elements i fieldName name = Some v →
  annotationAt (convertAnnotationsToTypeReferences elements typeToElemID names)
    i fieldName name
  = Some (VList (resolveTypeReference typeToElemID <$> makeArray v)).
Proof.
  intros Hvis Hin Hv. unfold convertAnnotationsToTypeReferences.
  rewrite (annotationAt_rewriteElement (typeRewrite typeToElemID))
    by apply typeRewrite_idemp.
  by rewrite Hvis, bool_decide_eq_true_2, Hv.
Qed.

(** C10. After the type/foreign-key pass every listed annotation defined on
    a field of a visited record holds a sequence; a scalar value [v] becomes
    the one-element sequence of its resolution, and an unresolved scalar
    therefore changes shape from [v] to the singleton [[v]]. *)
Theorem type_pass_wraps_scalars elements typeToElemID names i fieldName name v :
  visited elements i = true →
  name ∈ names →
  annotationAt elements i fieldName name = Some v →
  let after :=
    annotationAt
      (convertAnnotationsToTypeReferences elements typeToElemID names)
      i fieldName name in
  (∃ items, after = Some (VList items)) ∧
  (isArray v = false →
     after = Some (VList [resolveTypeReference typeToElemID v])) ∧
  (isArray v = false → resolveTypeReference typeToElemID v = v →
     after = Some (VList [v]) ∧ after ≠ Some v).
Proof.
  intros Hvis Hin Hv after.
  assert (after
          = Some (VList (resolveTypeReference typeToElemID <$> makeArray v)))
    as Hafter by by apply type_pass_elementwise.
  assert (isArray v = false → makeArray v = [v]) as Hone
    by by destruct v.
  split; [by eexists|]. split.
  - intros Hs. by rewrite Hafter, Hone.
  - intros Hs Hr. rewrite Hafter, Hone by done. simpl. rewrite Hr.
    split; [done|]. intros [= Heq]. by destruct v.
Qed.

(** *** Splitting on the separator *)

(** [join] is [Array.prototype.join] with the separator. *)
Fixpoint join (parts : list string) : string :=
  match parts with
  | [] => ""
  | [p] => p
  | p :: rest => p +:+ API_NAME_SEPARATOR +:+ join rest
  end.

Fixpoint noSeparator (s : string) : bool :=
  match s with
  | EmptyString => true
  | String c rest =>
      if Ascii.eqb c "."%char then false else noSeparator rest
  end.

Lemma append_cons a s t : String a s +:+ t = String a (s +:+ t).
Proof. reflexivity. Qed.

Lemma append_snoc cur c rest :
  (cur +:+ String c "") +:+ rest = cur +:+ String c rest.
Proof.
  induction cur as [|a cur IH]; [done|]. by rewrite !append_cons, IH.
Qed.

Lemma append_empty_r s : s +:+ "" = s.
Proof. induction s as [|a s IH]; [done|]. by rewrite append_cons, IH. Qed.

Lemma noSeparator_snoc cur c :
  noSeparator cur = true → Ascii.eqb c "."%char = false →
  noSeparator (cur +:+ String c "") = true.
Proof.
  intros Hcur Hc. induction cur as [|a cur IH].
  - simpl. by rewrite Hc.
  - rewrite append_cons. simpl in *.
    destruct (Ascii.eqb a "."%char); [done|]. by apply IH.
Qed.

Lemma prefix_separator c rest :
  String.prefix API_NAME_SEPARATOR (String c rest) = Ascii.eqb c "."%char.
Proof.
  change (String.prefix API_NAME_SEPARATOR (String c rest))
    with (if ascii_dec "." c then String.prefix "" rest else false).
  destruct (ascii_dec "." c) as [<-|Hne]; [by destruct rest|].
  symmetry. apply Ascii.eqb_neq. congruence.
Qed.

Lemma splitFrom_step cur c rest :
  splitFrom API_NAME_SEPARATOR 0 cur (String c rest)
  = if Ascii.eqb c "."%char
    then cur :: splitFrom API_NAME_SEPARATOR 0 "" rest
    else splitFrom API_NAME_SEPARATOR 0 (cur +:+ String c "") rest.
Proof.
  cbn [splitFrom]. rewrite prefix_separator. by destruct (Ascii.eqb c ".").
Qed.

Lemma splitFrom_nonempty s : ∀ cur,
  splitFrom API_NAME_SEPARATOR 0 cur s ≠ [].
Proof.
  induction s as [|c rest IH]; intros cur; [done|].
  rewrite splitFrom_step. destruct (Ascii.eqb c "."); [done|apply IH].
Qed.

(** Joining the parts gives the string back. *)
Lemma join_splitFrom s : ∀ cur,
  join (splitFrom API_NAME_SEPARATOR 0 cur s) = cur +:+ s.
Proof.
  induction s as [|c rest IH]; intros cur.
  - simpl. by rewrite append_empty_r.
  - rewrite splitFrom_step. destruct (Ascii.eqb c ".") eqn:Hc.
    + apply Ascii.eqb_eq in Hc as ->.
      destruct (splitFrom API_NAME_SEPARATOR 0 "" rest) as [|p l] eqn:Hs.
      { by apply splitFrom_nonempty in Hs. }
      change (join (cur :: p :: l))
        with (cur +:+ API_NAME_SEPARATOR +:+ join (p :: l)).
      rewrite <- Hs, IH. done.
    + by rewrite IH, append_snoc.
Qed.

(** No part contains the separator. *)
Lemma noSeparator_splitFrom s : ∀ cur,
  noSeparator cur = true →
  Forall (λ p, noSeparator p = true) (splitFrom API_NAME_SEPARATOR 0 cur s).
Proof.
  induction s as [|c rest IH]; intros cur Hcur.
  - simpl. by constructor.
  - rewrite splitFrom_step. destruct (Ascii.eqb c ".") eqn:Hc.
    + constructor; [done|]. by apply IH.
    + apply IH. by apply noSeparator_snoc.
Qed.

Lemma splitFrom_noSeparator s : ∀ cur,
  noSeparator s = true →
  splitFrom API_NAME_SEPARATOR 0 cur s = [cur +:+ s].
Proof.
  induction s as [|c rest IH]; intros cur Hs; simpl in Hs.
  - simpl. by rewrite append_empty_r.
  - rewrite splitFrom_step. destruct (Ascii.eqb c "."); [done|].
    by rewrite IH, append_snoc.
Qed.

Lemma splitFrom_append a rest : ∀ cur,
  noSeparator a = true →
  splitFrom API_NAME_SEPARATOR 0 cur (a +:+ API_NAME_SEPARATOR +:+ rest)
  = (cur +:+ a) :: splitFrom API_NAME_SEPARATOR 0 "" rest.
Proof.
  induction a as [|c a IH]; intros cur Ha; simpl in Ha.
  - change ("" +:+ API_NAME_SEPARATOR +:+ rest) with (String "." rest).
    rewrite splitFrom_step. simpl. by rewrite append_empty_r.
  - change (String c a +:+ API_NAME_SEPARATOR +:+ rest)
      with (String c (a +:+ API_NAME_SEPARATOR +:+ rest)).
    rewrite splitFrom_step. destruct (Ascii.eqb c "."); [done|].
    by rewrite IH, append_snoc.
Qed.

(** A string splits into exactly two parts precisely when it is
    [container.member] with no further separator. *)
Lemma split_two_parts s container member :
  split s API_NAME_SEPARATOR = [container; member]
  ↔ s = container +:+ API_NAME_SEPARATOR +:+ member
    ∧ noSeparator container = true ∧ noSeparator member = true.
Proof.
  change (split s API_NAME_SEPARATOR)
    with (splitFrom API_NAME_SEPARATOR 0 "" s).
  split.
  - intros Hs.
    pose proof (join_splitFrom s "") as Hj.
    pose proof (noSeparator_splitFrom s "" eq_refl) as Hn.
    rewrite Hs in Hj, Hn.
    change (container +:+ API_NAME_SEPARATOR +:+ member = s) in Hj.
    apply Forall_cons in Hn as [Hc Hn]. apply Forall_cons in Hn as [Hm _].
    done.
  - intros (-> & Hc & Hm).
    by rewrite splitFrom_append, splitFrom_noSeparator.
Qed.

(** *** The field/compound-key pass *)

(** The element-wise reading of the pass on a sequence-valued annotation:
    every member of the sequence would be resolved on its own. *)
Definition fieldPassElementwise : Prop :=
  ∀ elements names i fieldName name items,
    visited elements i = true →
    name ∈ names →
    annotationAt elements i fieldName name = Some (VList items) →
    annotationAt (convertAnnotationsToFieldReferences elements names)
      i fieldName name
    = Some (VList (resolveFieldReference <$> items)).

(** C2, as the code has it. In the field/compound-key pass, a listed
    annotation defined on a field of a visited record is rewritten as
    follows: a string that is [container.member] with no other separator (it
    splits into exactly two parts) becomes the reference to the field
    [member] of the type [container]; a string that splits into another
    number of parts stays as it is; and a value that is not a string, a
    sequence included, stays as it is as a whole. *)
Theorem field_pass_rewrites elements names i fieldName name v :
  visited elements i = true →
  name ∈ names →
  annotationAt elements i fieldName name = Some v →
  let after :=
    annotationAt (convertAnnotationsToFieldReferences elements names)
      i fieldName name in
  (∀ container member,
     noSeparator container = true → noSeparator member = true →
     v = VString (container +:+ API_NAME_SEPARATOR +:+ member) →
     after = Some (VRef (mkElemID "salesforce" container "field" [member]))) ∧
  (∀ s, v = VString s → length (split s API_NAME_SEPARATOR) ≠ 2 →
     after = Some v) ∧
  (isString v = false → after = Some v).
Proof.
  intros Hvis Hin Hv after. subst after.
  unfold convertAnnotationsToFieldReferences.
  rewrite annotationAt_rewriteElement by apply resolveFieldReference_idemp.
  rewrite Hvis, bool_decide_eq_true_2, Hv by done.
  cbn [fmap option_fmap option_map andb].
  repeat split.
  - intros container member Hc Hm ->.
    unfold resolveFieldReference.
    by rewrite (proj2 (split_two_parts _ container member)).
  - intros s -> Hlen. unfold resolveFieldReference.
    by destruct (split s API_NAME_SEPARATOR) as [|a [|b [|c l]]].
  - intros Hs. by destruct v.
Qed.

(** *** Running the filter twice *)

(** The transformer's predicates and accessors read the identifier and the
    annotations of a type, never the annotations of its fields. *)
Hypothesis isMetadataObjectType_fields : ∀ id annotations fields1 fields2,
  isMetadataObjectType (ObjectType id annotations fields1)
  = isMetadataObjectType (ObjectType id annotations fields2).
Hypothesis isCustomObject_fields : ∀ id annotations fields1 fields2,
  isCustomObject (ObjectType id annotations fields1)
  = isCustomObject (ObjectType id annotations fields2).
Hypothesis metadataType_fields : ∀ id annotations fields1 fields2,
  metadataType (ObjectType id annotations fields1)
  = metadataType (ObjectType id annotations fields2).
Hypothesis apiName_fields : ∀ id annotations fields1 fields2,
  apiName (ObjectType id annotations fields1)
  = apiName (ObjectType id annotations fields2).

Lemma isMetadataTypeOrCustomObject_rewriteElement f names elem :
  isMetadataTypeOrCustomObject (rewriteElement f names elem)
  = isMetadataTypeOrCustomObject elem.
Proof using isMetadataObjectType_fields isCustomObject_fields.
  destruct elem as [id anns fields| |]; simpl; try done.
  destruct (isMetadataTypeOrCustomObject (ObjectType id anns fields)) eqn:Hsel;
    [|done].
  rewrite <- Hsel. unfold isMetadataTypeOrCustomObject.
  f_equal; [apply isMetadataObjectType_fields|apply isCustomObject_fields].
Qed.

Lemma keyByStep_rewriteElement f names index elem :
  keyByStep index (rewriteElement f names elem) = keyByStep index elem.
Proof using All.
  unfold keyByStep. rewrite isMetadataTypeOrCustomObject_rewriteElement.
  destruct elem as [id anns fields| |]; simpl; try done.
  destruct (isMetadataTypeOrCustomObject (ObjectType id anns fields)); [|done].
  by rewrite (metadataType_fields _ _ _ fields), (apiName_fields _ _ _ fields).
Qed.

(** The reference index does not change when a pass has run. *)
Lemma keyBy_rewriteElement f names elements :
  keyBy (buildElementsSourceForFetch (rewriteElement f names <$> elements))
  = keyBy (buildElementsSourceForFetch elements).
Proof using All.
  unfold keyBy, buildElementsSourceForFetch. rewrite !foldl_app. f_equal.
  generalize (∅ : Index).
  induction elements as [|elem elements IH]; intros index; [done|].
  cbn [fmap list_fmap foldl]. by rewrite keyByStep_rewriteElement, IH.
Qed.

Lemma Field_eq (field1 field2 : Field) :
  (∀ n, field_annotations field1 !! n = field_annotations field2 !! n) →
  field1 = field2.
Proof.
  destruct field1 as [anns1], field2 as [anns2]; simpl.
  intros Heq. f_equal. by apply map_eq.
Qed.

(** What the type pass followed by the field pass does to the annotation
    [n] of a field. *)
Definition bothPasses (typeToElemID : Index) (typeNames fieldNames : list string)
    (n : string) (v : Value) : Value :=
  let v1 := if decide (n ∈ typeNames) then typeRewrite typeToElemID v else v in
  if decide (n ∈ fieldNames) then resolveFieldReference v1 else v1.

Lemma bothPasses_lookup typeToElemID typeNames fieldNames field n :
  field_annotations
    (rewriteField resolveFieldReference fieldNames
       (rewriteField (typeRewrite typeToElemID) typeNames field)) !! n
  = bothPasses typeToElemID typeNames fieldNames n
    <$> field_annotations field !! n.
Proof.
  rewrite (rewriteField_lookup resolveFieldReference)
    by apply resolveFieldReference_idemp.
  rewrite (rewriteField_lookup (typeRewrite typeToElemID))
    by apply typeRewrite_idemp.
  unfold bothPasses.
  destruct (field_annotations field !! n) as [v|];
    by destruct (decide (n ∈ fieldNames)), (decide (n ∈ typeNames)).
Qed.

Lemma bothPasses_idemp typeToElemID typeNames fieldNames n v :
  bothPasses typeToElemID typeNames fieldNames n
    (bothPasses typeToElemID typeNames fieldNames n v)
  = bothPasses typeToElemID typeNames fieldNames n v.
Proof.
  unfold bothPasses.
  destruct (decide (n ∈ fieldNames)), (decide (n ∈ typeNames));
    rewrite ?resolveFieldReference_idemp, ?typeRewrite_idemp; try done.
  change (resolveFieldReference (typeRewrite typeToElemID v))
    with (typeRewrite typeToElemID v).
  by rewrite typeRewrite_idemp.
Qed.

(** On one field the two passes in sequence reach a fixed point at once. *)
Lemma rewriteField_twice typeToElemID typeNames fieldNames field :
  let pass field :=
    rewriteField resolveFieldReference fieldNames
      (rewriteField (typeRewrite typeToElemID) typeNames field) in
  pass (pass field) = pass field.
Proof.
  intros pass. subst pass. apply Field_eq. intros n.
  rewrite !bothPasses_lookup.
  destruct (field_annotations field !! n) as [v|]; [|done].
  simpl. by rewrite bothPasses_idemp.
Qed.

Lemma rewriteElement_twice typeToElemID typeNames fieldNames elem :
  let pass elem :=
    rewriteElement resolveFieldReference fieldNames
      (rewriteElement (typeRewrite typeToElemID) typeNames elem) in
  pass (pass elem) = pass elem.
Proof using isMetadataObjectType_fields isCustomObject_fields.
  intros pass. subst pass.
  destruct elem as [id anns fields| |]; try done.
  destruct (isMetadataTypeOrCustomObject (ObjectType id anns fields)) eqn:Hsel.
  - assert (∀ fields', isMetadataTypeOrCustomObject (ObjectType id anns fields')
                       = true) as Hall.
    { intros fields'. rewrite <- Hsel. unfold isMetadataTypeOrCustomObject.
      f_equal; [apply isMetadataObjectType_fields|apply isCustomObject_fields]. }
    assert (∀ f names fields',
              rewriteElement f names (ObjectType id anns fields')
              = ObjectType id anns (rewriteField f names <$> fields')) as Hrw.
    { intros f names fields'. cbn [rewriteElement]. by rewrite Hall. }
    rewrite !Hrw. f_equal.
    rewrite <- !map_fmap_compose. apply map_fmap_ext.
    intros fieldName field _. apply rewriteField_twice.
  - assert (∀ f names, rewriteElement f names (ObjectType id anns fields)
                       = ObjectType id anns fields) as Hrw.
    { intros f names. cbn [rewriteElement]. by rewrite Hsel. }
    by rewrite !Hrw.
Qed.

(** C3. Running [onFetch] on its own result gives that result again: the
    index built from the resolved record set is the index of the first run,
    and on every annotation the type pass followed by the field pass reaches
    a fixed point at once.  In particular both resolvers return a structural
    reference as it is. *)
Theorem onFetch_idempotent elements :
  onFetch (onFetch elements) = onFetch elements
  ∧ (∀ typeToElemID target,
       resolveTypeReference typeToElemID (VRef target) = VRef target
       ∧ resolveFieldReference (VRef target) = VRef target).
Proof using All.
  split; [|done].
  unfold onFetch, convertAnnotationsToFieldReferences,
    convertAnnotationsToTypeReferences.
  rewrite !keyBy_rewriteElement.
  set (typeToElemID := keyBy (buildElementsSourceForFetch elements)).
  rewrite <- !list_fmap_compose. apply list_fmap_ext.
  intros _ elem _. apply rewriteElement_twice.
Qed.

(** *** What the passes leave alone *)

(** An element without the annotations of its fields, and the annotation
    names of each of its fields. *)
Definition withoutFields (elem : Element) : Element :=
  match elem with
  | ObjectType id annotations _ => ObjectType id annotations ∅
  | _ => elem
  end.

Definition annotationNamesOf (elem : Element) : gmap string (gset string) :=
  match elem with
  | ObjectType _ _ fields => (λ field, dom (field_annotations field)) <$> fields
  | _ => ∅
  end.

(** The property names that every plain object inherits from
    [Object.prototype]: under these [field.annotations[name]] is defined on
    every field, whatever its own annotations are. *)
Definition objectPrototypeNames : list string :=
  ["constructor"; "hasOwnProperty"; "isPrototypeOf"; "propertyIsEnumerable";
   "toLocaleString"; "toString"; "valueOf"; "__defineGetter__";
   "__defineSetter__"; "__lookupGetter__"; "__lookupSetter__"; "__proto__"].

Lemma annotationAt_type_pass elements typeToElemID names i fieldName n :
  annotationAt (convertAnnotationsToTypeReferences elements typeToElemID names)
    i fieldName n
  = if visited elements i && bool_decide (n ∈ names)
    then typeRewrite typeToElemID <$> annotationAt elements i fieldName n
    else annotationAt elements i fieldName n.
Proof.
  unfold convertAnnotationsToTypeReferences.
  apply annotationAt_rewriteElement, typeRewrite_idemp.
Qed.

Lemma annotationAt_field_pass elements names i fieldName n :
  annotationAt (convertAnnotationsToFieldReferences elements names)
    i fieldName n
  = if visited elements i && bool_decide (n ∈ names)
    then resolveFieldReference <$> annotationAt elements i fieldName n
    else annotationAt elements i fieldName n.
Proof.
  unfold convertAnnotationsToFieldReferences.
  apply annotationAt_rewriteElement, resolveFieldReference_idemp.
Qed.

(** X1. Both passes leave every annotation as it is when its name is not
    listed for the pass or when its record is not visited (it is not an
    object type, or it fails the metadata-type-or-custom-object
    predicate). *)
Theorem passes_frame elements typeToElemID names i fieldName n :
  visited elements i = false ∨ n ∉ names →
  annotationAt (convertAnnotationsToTypeReferences elements typeToElemID names)
    i fieldName n
  = annotationAt elements i fieldName n
  ∧ annotationAt (convertAnnotationsToFieldReferences elements names)
      i fieldName n
    = annotationAt elements i fieldName n.
Proof.
  intros Hout. rewrite annotationAt_type_pass, annotationAt_field_pass.
  destruct Hout as [->|Hnotin]; [done|].
  rewrite bool_decide_eq_false_2 by done. by rewrite andb_false_r.
Qed.

Lemma rewriteField_dom f names field :
  (∀ v, f (f v) = f v) →
  dom (field_annotations (rewriteField f names field))
  = dom (field_annotations field).
Proof.
  intros Hf. apply set_eq. intros n.
  rewrite !elem_of_dom, rewriteField_lookup by done.
  case_decide; [|done]. by rewrite fmap_is_Some.
Qed.

Lemma rewriteElement_shape f names elem :
  (∀ v, f (f v) = f v) →
  withoutFields (rewriteElement f names elem) = withoutFields elem
  ∧ annotationNamesOf (rewriteElement f names elem) = annotationNamesOf elem.
Proof.
  intros Hf. destruct elem as [id anns fields| |]; try done.
  cbn [rewriteElement].
  destruct (isMetadataTypeOrCustomObject _); [|done].
  split; [done|]. cbn [annotationNamesOf].
  rewrite <- map_fmap_compose. apply map_fmap_ext.
  intros fieldName field _. by apply rewriteField_dom.
Qed.

(** X2. When no listed annotation name is one that a plain object inherits
    from [Object.prototype], neither pass adds, drops or reorders anything
    but annotation values: the record set keeps its elements in order, every
    element keeps its identifier and its own annotations, and every field
    keeps exactly its annotation names. *)
Theorem passes_preserve_shape elements typeToElemID names :
  Forall (λ name, name ∉ objectPrototypeNames) names →
  let typed :=
    convertAnnotationsToTypeReferences elements typeToElemID names in
  let fielded := convertAnnotationsToFieldReferences elements names in
  withoutFields <$> typed = withoutFields <$> elements
  ∧ annotationNamesOf <$> typed = annotationNamesOf <$> elements
  ∧ withoutFields <$> fielded = withoutFields <$> elements
  ∧ annotationNamesOf <$> fielded = annotationNamesOf <$> elements.
Proof.
  intros _ typed fielded. subst typed fielded.
  unfold convertAnnotationsToTypeReferences,
    convertAnnotationsToFieldReferences.
  rewrite <- !list_fmap_compose.
  repeat split; apply list_fmap_ext; intros _ elem _; simpl.
  - by apply rewriteElement_shape, typeRewrite_idemp.
  - by apply rewriteElement_shape, typeRewrite_idemp.
  - by apply rewriteElement_shape, resolveFieldReference_idemp.
  - by apply rewriteElement_shape, resolveFieldReference_idemp.
Qed.

(** X3. On a sequence-valued annotation the type pass works member by
    member: the sequence keeps its length and order, a member that is not a
    string stays as it is, and a string member is either kept or replaced by
    a reference. *)
Theorem type_pass_sequence elements typeToElemID names i fieldName name items :
  visited elements i = true →
  name ∈ names →
  annotationAt elements i fieldName name = Some (VList items) →
  ∃ items',
    annotationAt
      (convertAnnotationsToTypeReferences elements typeToElemID names)
      i fieldName name
    = Some (VList items')
    ∧ length items' = length items
    ∧ ∀ k member, items !! k = Some member →
        items' !! k = Some (resolveTypeReference typeToElemID member)
        ∧ (isString member = false → items' !! k = Some member)
        ∧ (resolveTypeReference typeToElemID member = member
           ∨ ∃ target,
               resolveTypeReference typeToElemID member = VRef target).
Proof.
  intros Hvis Hin Hv. eexists. split.
  { rewrite annotationAt_type_pass, Hvis, bool_decide_eq_true_2, Hv by done.
    reflexivity. }
  cbn [makeArray]. split; [apply length_fmap|].
  intros k member Hk.
  assert ((resolveTypeReference typeToElemID <$> items) !! k
          = Some (resolveTypeReference typeToElemID member)) as Hk'
    by by rewrite list_lookup_fmap, Hk.
  split; [done|]. split.
  - intros Hs. rewrite Hk'. by destruct member.
  - destruct member as [s| | | | | |]; try by left.
    rewrite resolveTypeReference_string.
    destruct (typeToElemID !! (s, s)); [right; by eexists|].
    destruct (typeToElemID !! (CUSTOM_OBJECT, s)); [right; by eexists|].
    by left.
Qed.

(** *** The reference of a compound key keeps the key *)

Lemma resolveFieldReference_reference s target :
  resolveFieldReference (VString s) = VRef target →
  ∃ container member,
    target = mkElemID "salesforce" container "field" [member]
    ∧ s = container +:+ API_NAME_SEPARATOR +:+ member
    ∧ noSeparator container = true ∧ noSeparator member = true.
Proof.
  unfold resolveFieldReference.
  destruct (split s API_NAME_SEPARATOR) as [|a [|b [|c l]]] eqn:Hs; try done.
  intros [= <-]. exists a, b. split; [done|]. by apply split_two_parts.
Qed.

Lemma resolveFieldReference_string s :
  resolveFieldReference (VString s) = VString s
  ∨ ∃ target, resolveFieldReference (VString s) = VRef target.
Proof.
  unfold resolveFieldReference.
  destruct (split s API_NAME_SEPARATOR) as [|a [|b [|c l]]]; eauto.
Qed.

(** X4. The field resolver gives the identifier constructor all of a
    string: when a string [s] becomes a reference, the constructor is given
    the adapter [salesforce], the id type [field], a type name and one name,
    and the type name, the separator and the name spell [s] again; so two
    different strings never give the constructor the same arguments, and a
    string that stays a string stays itself. *)
Theorem resolveFieldReference_keeps_key s :
  (∀ target, resolveFieldReference (VString s) = VRef target →
     adapter target = "salesforce" ∧ idType target = "field"
     ∧ ∃ member, nameParts target = [member]
                 ∧ s = typeName target +:+ API_NAME_SEPARATOR +:+ member)
  ∧ (∀ s', resolveFieldReference (VString s) = resolveFieldReference (VString s')
           → s = s').
Proof.
  split.
  - intros target (container & member & -> & -> & _)%resolveFieldReference_reference.
    repeat split. by exists member.
  - intros s' Heq.
    destruct (resolveFieldReference_string s) as [H1|[t1 H1]],
      (resolveFieldReference_string s') as [H2|[t2 H2]];
      rewrite H1, H2 in Heq; try done.
    + by injection Heq.
    + injection Heq as <-.
      apply resolveFieldReference_reference in H1 as (c1 & m1 & -> & -> & _).
      apply resolveFieldReference_reference in H2
        as (c2 & m2 & [= <- <-] & -> & _).
      done.
Qed.

(** *** Each pass on its own, and the two in either order *)







(** *** The references that a fetch creates *)

Lemma keyBy_fold_sound iter : ∀ index key target,
  foldl keyByStep index iter !! key = Some target →
  index !! key = Some target
  ∨ ∃ elem, elem ∈ iter ∧ isMetadataTypeOrCustomObject elem = true
            ∧ (metadataType elem, apiName elem) = key
            ∧ elemID elem = target.
Proof.
  induction iter as [|obj iter IH]; intros index key target; cbn [foldl].
  { by left. }
  intros [Hstep|(elem & Hin & Hrest)]%IH.
  - unfold keyByStep in Hstep.
    destruct (isMetadataTypeOrCustomObject obj) eqn:Hsel; [|by left].
    destruct (decide ((metadataType obj, apiName obj) = key)) as [<-|Hne].
    + rewrite lookup_insert_eq in Hstep. injection Hstep as <-.
      right. exists obj. split; [apply list_elem_of_here|done].
    + rewrite lookup_insert_ne in Hstep by done. by left.
  - right. exists elem. split; [by apply list_elem_of_further|done].
Qed.

Lemma keyBy_fold_mono iter : ∀ index key,
  is_Some (index !! key) → is_Some (foldl keyByStep index iter !! key).
Proof.
  induction iter as [|obj iter IH]; intros index key Hsome; cbn [foldl].
  { done. }
  apply IH. unfold keyByStep.
  destruct (isMetadataTypeOrCustomObject obj); [|done].
  destruct (decide ((metadataType obj, apiName obj) = key)) as [<-|Hne].
  - rewrite lookup_insert_eq. by eexists.
  - by rewrite lookup_insert_ne.
Qed.

Lemma keyBy_fold_complete iter : ∀ index elem,
  elem ∈ iter → isMetadataTypeOrCustomObject elem = true →
  is_Some (foldl keyByStep index iter !! (metadataType elem, apiName elem)).
Proof.
  induction iter as [|obj iter IH]; intros index elem Hin Hsel; cbn [foldl].
  { by apply elem_of_nil in Hin. }
  apply elem_of_cons in Hin as [->|Hin]; [|by apply IH].
  apply keyBy_fold_mono. unfold keyByStep. rewrite Hsel.
  rewrite lookup_insert_eq. by eexists.
Qed.

(** After [onFetch], a type annotation of a visited record is what the type
    pass made of it with the index of the fetch: the field pass leaves a
    sequence alone. *)
Lemma annotationAt_onFetch elements i fieldName name :
  visited elements i = true →
  name ∈ typeAnnotationNames →
  annotationAt (onFetch elements) i fieldName name
  = typeRewrite (keyBy (buildElementsSourceForFetch elements))
    <$> annotationAt elements i fieldName name.
Proof.
  intros Hvis Hin. unfold onFetch.
  rewrite annotationAt_field_pass, annotationAt_type_pass.
  rewrite Hvis, (bool_decide_eq_true_2 (name ∈ typeAnnotationNames)) by done.
  cbn [andb].
  destruct (visited _ i && bool_decide _); [|done].
  by destruct (annotationAt elements i fieldName name).
Qed.

Lemma annotationAt_onFetch_string elements i fieldName name s :
  visited elements i = true →
  name ∈ typeAnnotationNames →
  annotationAt elements i fieldName name = Some (VString s) →
  annotationAt (onFetch elements) i fieldName name
  = Some (VList
      [match foldl keyByStep ∅ (buildElementsSourceForFetch elements)
               !! (s, s) with
       | Some target => VRef target
       | None =>
           match foldl keyByStep ∅ (buildElementsSourceForFetch elements)
                   !! (CUSTOM_OBJECT, s) with
           | Some target => VRef target
           | None => VString s
           end
       end]).
Proof.
  intros Hvis Hin Hv. rewrite annotationAt_onFetch, Hv by done.
  change (typeRewrite ?index <$> Some (VString s))
    with (Some (VList [resolveTypeReference index (VString s)])).
  by rewrite resolveTypeReference_string.
Qed.


(** X8. A fetch resolves a type name [s] exactly when a target exists: if
    the reference universe of the fetch has a record that satisfies the
    predicate, with API name [s] and metadata type [s] or the custom-object
    kind, the annotation becomes the sequence of one reference; if it has
    none, the annotation becomes the sequence of the string itself. *)
Theorem onFetch_resolves_iff_target elements i fieldName name s :
  visited elements i = true →
  name ∈ typeAnnotationNames →
  annotationAt elements i fieldName name = Some (VString s) →
  let isTarget elem :=
    elem ∈ buildElementsSourceForFetch elements
    ∧ isMetadataTypeOrCustomObject elem = true
    ∧ apiName elem = s
    ∧ (metadataType elem = s ∨ metadataType elem = CUSTOM_OBJECT) in
  ((∃ elem, isTarget elem) →
     ∃ target, annotationAt (onFetch elements) i fieldName name
               = Some (VList [VRef target]))
  ∧ ((∀ elem, ¬ isTarget elem) →
     annotationAt (onFetch elements) i fieldName name
     = Some (VList [VString s])).
Proof.
  intros Hvis Hin Hv isTarget. subst isTarget.
  rewrite (annotationAt_onFetch_string _ _ _ _ s) by done. split.
  - intros (elem & Hel & Hsel & Ha & Hk).
    pose proof (keyBy_fold_complete _ ∅ elem Hel Hsel) as [t Ht].
    rewrite Ha in Ht.
    destruct (foldl keyByStep ∅ _ !! (s, s)) as [t1|] eqn:H1; [by eexists|].
    destruct Hk as [Hk|Hk]; rewrite Hk in Ht; [congruence|].
    rewrite Ht. by eexists.
  - intros Hnone.
    destruct (foldl keyByStep ∅ _ !! (s, s)) as [t|] eqn:H1.
    { apply keyBy_fold_sound in H1
        as [H1|(elem & Hel & Hsel & [= Hk Ha] & Hid)];
        [by rewrite lookup_empty in H1|].
      destruct (Hnone elem). split_and!; auto. }
    destruct (foldl keyByStep ∅ _ !! (CUSTOM_OBJECT, s)) as [t|] eqn:H2;
      [|done].
    apply keyBy_fold_sound in H2
      as [H2|(elem & Hel & Hsel & [= Hk Ha] & Hid)];
      [by rewrite lookup_empty in H2|].
    destruct (Hnone elem). split_and!; auto.
Qed.

End Filter.

(** *** A transformer and a record set to run the filter on *)

(** A transformer that reads the [metadataType] and [apiName] annotations of
    a type. *)
Definition annotatedMetadataType (elem : Element) : string :=
  match elem with
  | ObjectType _ annotations _ =>
      match annotations !! "metadataType" with
      | Some (VString kind) => kind
      | _ => "unknown"
      end
  | _ => "unknown"
  end.

Definition annotatedApiName (elem : Element) : string :=
  match elem with
  | ObjectType _ annotations _ =>
      match annotations !! "apiName" with
      | Some (VString name) => name
      | _ => ""
      end
  | _ => ""
  end.

Definition hasMetadataType (elem : Element) : bool :=
  match elem with
  | ObjectType _ annotations _ =>
      bool_decide (is_Some (annotations !! "metadataType"))
  | _ => false
  end.

Definition hasCustomObjectKind (elem : Element) : bool :=
  isObjectType elem
  && String.eqb (annotatedMetadataType elem) CUSTOM_OBJECT
  && negb (String.eqb (annotatedApiName elem) "").

Definition accountId : ElemID := mkElemID "salesforce" "Account" "" [].
Definition contactId : ElemID := mkElemID "salesforce" "Contact" "" [].

Definition account : Element :=
  ObjectType accountId
    {[ "metadataType" := VString "CustomObject";
       "apiName" := VString "Account" ]}
    {[ "Name" := mkField ∅ ]}.

(** A type whose field annotations cover the cases of both passes: a name
    found only under the custom-object kind, a name found nowhere, a compound
    key, a plain name and a sequence of compound keys. *)
Definition contact : Element :=
  ObjectType contactId
    {[ "metadataType" := VString "CustomObject";
       "apiName" := VString "Contact" ]}
    {[ "Owner" := mkField {[ "referenceTo" := VString "Account";
                             "foreignKeyDomain" := VString "Elsewhere";
                             "summarizedField" := VString "Account.Name";
                             "controllingField" := VString "Name";
                             "valueField" := VList [VString "Account.Name"] ]} ]}.

Definition fetched : list Element := [account; contact].

Definition fetchedIndex : Index :=
  keyBy hasMetadataType hasCustomObjectKind annotatedMetadataType
    annotatedApiName fetched.

Lemma fetchedIndex_account :
  fetchedIndex !! ("Account", "Account") = None
  ∧ fetchedIndex !! (CUSTOM_OBJECT, "Account") = Some accountId.
Proof. by vm_compute. Qed.

Example split_samples :
  split "Account.Name" "." = ["Account"; "Name"]
  ∧ split "a.b.c" "." = ["a"; "b"; "c"]
  ∧ split "Name" "." = ["Name"]
  ∧ split "" "." = [""]
  ∧ split "." "." = [""; ""]
  ∧ split "a--b-c" "--" = ["a"; "b-c"]
  ∧ split "ab" "" = ["a"; "b"].
Proof. by vm_compute. Qed.

(** One run of the filter on the record set: the five annotations of the
    field [Owner] afterwards. *)
Example onFetch_fetched :
  let after :=
    onFetch hasMetadataType hasCustomObjectKind annotatedMetadataType
      annotatedApiName [] "referenceTo" "foreignKeyDomain" "summarizedField"
      "summaryForeignKey" "controllingField" "field" "valueField" fetched in
  annotationAt after 1 "Owner" "referenceTo" = Some (VList [VRef accountId])
  ∧ annotationAt after 1 "Owner" "foreignKeyDomain"
    = Some (VList [VString "Elsewhere"])
  ∧ annotationAt after 1 "Owner" "summarizedField"
    = Some (VRef (mkElemID "salesforce" "Account" "field" ["Name"]))
  ∧ annotationAt after 1 "Owner" "controllingField" = Some (VString "Name")
  ∧ annotationAt after 1 "Owner" "valueField"
    = Some (VList [VString "Account.Name"]).
Proof. by vm_compute. Qed.

Lemma type_pass_lookup_order_witness :
  annotationAt
    (convertAnnotationsToTypeReferences hasMetadataType hasCustomObjectKind
       fetched fetchedIndex ["referenceTo"; "foreignKeyDomain"])
    1 "Owner" "referenceTo"
  = Some (VList [VRef accountId]).
Proof.
  refine (proj1 (proj2
    (type_pass_lookup_order hasMetadataType hasCustomObjectKind
       fetched fetchedIndex ["referenceTo"; "foreignKeyDomain"]
       1 "Owner" "referenceTo" "Account" _ _ _)) accountId _ _).
  - reflexivity.
  - apply (bool_decide_unpack _). vm_compute. exact I.
  - reflexivity.
  - vm_compute. reflexivity.
  - vm_compute. reflexivity.
Defined.

Lemma type_pass_wraps_scalars_witness :
  annotationAt
    (convertAnnotationsToTypeReferences hasMetadataType hasCustomObjectKind
       fetched fetchedIndex ["referenceTo"; "foreignKeyDomain"])
    1 "Owner" "foreignKeyDomain"
  = Some (VList [VString "Elsewhere"])
  ∧ annotationAt
      (convertAnnotationsToTypeReferences hasMetadataType hasCustomObjectKind
         fetched fetchedIndex ["referenceTo"; "foreignKeyDomain"])
      1 "Owner" "foreignKeyDomain"
    ≠ Some (VString "Elsewhere").
Proof.
  refine (proj2 (proj2
    (type_pass_wraps_scalars hasMetadataType hasCustomObjectKind
       fetched fetchedIndex ["referenceTo"; "foreignKeyDomain"]
       1 "Owner" "foreignKeyDomain" (VString "Elsewhere") _ _ _)) _ _).
  - reflexivity.
  - apply (bool_decide_unpack _). vm_compute. exact I.
  - reflexivity.
  - reflexivity.
  - vm_compute. reflexivity.
Defined.

Lemma field_pass_rewrites_witness :
  annotationAt
    (convertAnnotationsToFieldReferences hasMetadataType hasCustomObjectKind
       fetched ["summarizedField"; "controllingField"; "valueField"])
    1 "Owner" "summarizedField"
  = Some (VRef (mkElemID "salesforce" "Account" "field" ["Name"])).
Proof.
  refine (proj1
    (field_pass_rewrites hasMetadataType hasCustomObjectKind
       fetched ["summarizedField"; "controllingField"; "valueField"]
       1 "Owner" "summarizedField" (VString "Account.Name") _ _ _)
    "Account" "Name" _ _ _).
  - reflexivity.
  - apply (bool_decide_unpack _). vm_compute. exact I.
  - reflexivity.
  - reflexivity.
  - reflexivity.
  - reflexivity.
Defined.

(** C2, as the claim words it, fails on a sequence-valued annotation: the
    field pass leaves [["Account.Name"]] as it is, where the element-wise
    reading asks for the sequence of one reference. *)
Lemma field_pass_not_elementwise :
  ¬ fieldPassElementwise hasMetadataType hasCustomObjectKind.
Proof.
  intros Hclaim.
  specialize (Hclaim fetched ["valueField"] 1 "Owner" "valueField"
                [VString "Account.Name"] eq_refl).
  assert ("valueField" ∈ ["valueField"]) as Hin by apply list_elem_of_here.
  specialize (Hclaim Hin eq_refl).
  vm_compute in Hclaim. discriminate Hclaim.
Qed.

Lemma onFetch_idempotent_witness :
  let run :=
    onFetch hasMetadataType hasCustomObjectKind annotatedMetadataType
      annotatedApiName [] "referenceTo" "foreignKeyDomain" "summarizedField"
      "summaryForeignKey" "controllingField" "field" "valueField" in
  run (run fetched) = run fetched.
Proof.
  refine (proj1
    (onFetch_idempotent hasMetadataType hasCustomObjectKind
       annotatedMetadataType annotatedApiName [] "referenceTo"
       "foreignKeyDomain" "summarizedField" "summaryForeignKey"
       "controllingField" "field" "valueField" _ _ _ _ fetched)).
  - intros id annotations fields1 fields2. reflexivity.
  - intros id annotations fields1 fields2. reflexivity.
  - intros id annotations fields1 fields2. reflexivity.
  - intros id annotations fields1 fields2. reflexivity.
Defined.

(** *** The further properties on the record set *)

(** A type whose [referenceTo] is a sequence: a custom object that is
    fetched, a name that is not, and a number. *)
Definition lead : Element :=
  ObjectType (mkElemID "salesforce" "Lead" "" [])
    {[ "metadataType" := VString "CustomObject";
       "apiName" := VString "Lead" ]}
    {[ "Who" := mkField {[ "referenceTo" :=
                             VList [VString "Account"; VString "Elsewhere";
                                    VNumber 7] ]} ]}.

Lemma passes_frame_witness :
  annotationAt
    (convertAnnotationsToTypeReferences hasMetadataType hasCustomObjectKind
       fetched fetchedIndex ["referenceTo"; "foreignKeyDomain"])
    1 "Owner" "controllingField"
  = Some (VString "Name")
  ∧ annotationAt
      (convertAnnotationsToFieldReferences hasMetadataType hasCustomObjectKind
         fetched ["referenceTo"; "foreignKeyDomain"])
      1 "Owner" "controllingField"
    = Some (VString "Name").
Proof.
  refine (passes_frame hasMetadataType hasCustomObjectKind fetched fetchedIndex
            ["referenceTo"; "foreignKeyDomain"] 1 "Owner" "controllingField" _).
  right. apply (bool_decide_unpack _). vm_compute. exact I.
Defined.

Lemma passes_preserve_shape_witness :
  let names := ["referenceTo"; "foreignKeyDomain"; "summarizedField"] in
  let typed :=
    convertAnnotationsToTypeReferences hasMetadataType hasCustomObjectKind
      fetched fetchedIndex names in
  let fielded :=
    convertAnnotationsToFieldReferences hasMetadataType hasCustomObjectKind
      fetched names in
  withoutFields <$> typed = withoutFields <$> fetched
  ∧ annotationNamesOf <$> typed = annotationNamesOf <$> fetched
  ∧ withoutFields <$> fielded = withoutFields <$> fetched
  ∧ annotationNamesOf <$> fielded = annotationNamesOf <$> fetched.
Proof.
  refine (passes_preserve_shape hasMetadataType hasCustomObjectKind fetched
            fetchedIndex ["referenceTo"; "foreignKeyDomain"; "summarizedField"]
            _).
  apply (bool_decide_unpack _). vm_compute. exact I.
Defined.

Lemma type_pass_sequence_witness :
  ∃ items',
    annotationAt
      (convertAnnotationsToTypeReferences hasMetadataType hasCustomObjectKind
         [account; lead] fetchedIndex ["referenceTo"])
      1 "Who" "referenceTo"
    = Some (VList items')
    ∧ length items' = 3%nat
    ∧ ∀ k member,
        [VString "Account"; VString "Elsewhere"; VNumber 7] !! k = Some member →
        items' !! k = Some (resolveTypeReference fetchedIndex member)
        ∧ (isString member = false → items' !! k = Some member)
        ∧ (resolveTypeReference fetchedIndex member = member
           ∨ ∃ target, resolveTypeReference fetchedIndex member = VRef target).
Proof.
  refine (type_pass_sequence hasMetadataType hasCustomObjectKind
            [account; lead] fetchedIndex ["referenceTo"] 1 "Who" "referenceTo"
            [VString "Account"; VString "Elsewhere"; VNumber 7] _ _ _).
  - reflexivity.
  - apply (bool_decide_unpack _). vm_compute. exact I.
  - reflexivity.
Defined.

Lemma resolveFieldReference_keeps_key_witness :
  "Account.Name" = "Account" +:+ API_NAME_SEPARATOR +:+ "Name"
  ∧ "Account.Name" = "Account.Name".
Proof.
  split.
  - destruct (proj1 (resolveFieldReference_keeps_key "Account.Name")
                (mkElemID "salesforce" "Account" "field" ["Name"]) eq_refl)
      as (_ & _ & member & Hparts & Hkey).
    injection Hparts as <-. exact Hkey.
  - refine (proj2 (resolveFieldReference_keeps_key "Account.Name")
              "Account.Name" _).
    reflexivity.
Defined.




Lemma onFetch_resolves_iff_target_witness :
  ∃ target,
    annotationAt
      (onFetch hasMetadataType hasCustomObjectKind annotatedMetadataType
         annotatedApiName [] "referenceTo" "foreignKeyDomain" "summarizedField"
         "summaryForeignKey" "controllingField" "field" "valueField" fetched)
      1 "Owner" "referenceTo"
    = Some (VList [VRef target]).
Proof.
  refine (proj1
    (onFetch_resolves_iff_target hasMetadataType hasCustomObjectKind
       annotatedMetadataType annotatedApiName [] "referenceTo"
       "foreignKeyDomain" "summarizedField" "summaryForeignKey"
       "controllingField" "field" "valueField"
       fetched 1 "Owner" "referenceTo" "Account" _ _ _) _).
  - reflexivity.
  - apply (bool_decide_unpack _). vm_compute. exact I.
  - reflexivity.
  - exists account. split; [apply list_elem_of_here|].
    split; [reflexivity|]. split; [reflexivity|]. right. reflexivity.
Defined.

End ReferenceResolver.

(** ** The Jira workflow deploy filter *)

Module WorkflowDeploy.

(** A call either returns or throws. *)
Inductive Completion (A : Type) : Type :=
| Returned (result : A)
| Threw (message : string).
Arguments Returned {A} result.
Arguments Threw {A} message.

Inductive LogLevel : Type := LogDebug | LogInfo | LogWarn | LogError.

Record LogEntry : Type := mkLogEntry {
  level : LogLevel;
  text : string;
}.

(** *** Reading transitions back from the service *)

(** [object[key]] on the members of a parsed JSON object. *)
Fixpoint getMember (key : string) (members : list (string * Value))
  : option Value :=
  match members with
  | [] => None
  | (k, v) :: rest => if String.eqb k key then Some v else getMember key rest
  end.

(** [v.key] in JavaScript for a key that no prototype defines, [None]
    standing for [undefined]: reading a property of [undefined] or [null]
    throws, a value without the property gives [undefined]. *)
Definition prop (v : option Value) (key : string) : Completion (option Value) :=
  match v with
  | None | Some VNull => Threw "TypeError: Cannot read properties"
  | Some (VObject members) => Returned (getMember key members)
  | Some _ => Returned None
  end.

(** [v[0]]. *)
Definition first (v : option Value) : Completion (option Value) :=
  match v with
  | None | Some VNull => Threw "TypeError: Cannot read properties"
  | Some (VList items) => Returned (head items)
  | Some (VString (String c _)) => Returned (Some (VString (String c "")))
  | Some (VObject members) => Returned (getMember "0" members)
  | Some _ => Returned None
  end.

Section Transitions.

(** [workflowSchema.validate(v).error] of the workflow types module, a
    parameter here: [None] when [v] is a well-formed workflow. *)
Variable workflowSchema : Value → option string.

(** [safeJsonStringify] of the adapter utilities. *)
Variable safeJsonStringify : option Value → string.

(** [client.getSinglePage(args)]: the [data] of the response, or the
    exception of the client. *)
Variable getSinglePage :
  string → list (string * string) → Completion (option Value).

(** [Joi.array().min(1).max(1).items(workflowSchema)] on a defined value. *)
Definition validateValues (v : Value) : option string :=
  match v with
  | VList items =>
      match list_find (λ item, is_Some (workflowSchema item)) items with
      | Some (_, item) => workflowSchema item
      | None =>
          if (length items <? 1)%nat
          then Some "values must contain at least 1 items"
          else if (1 <? length items)%nat
          then Some "values must contain less than or equal to 1 items"
          else None
      end
  | _ => Some "values must be an array"
  end.

(** The [error] of
    [Joi.object({ values: ... }).unknown(true).required().validate(response)]:
    the response has to be an object; its [values] key is optional, and is
    checked when it is there. *)
Definition validate (response : option Value) : option string :=
  match response with
  | None => Some "value is required"
  | Some (VObject members) =>
      match getMember "values" members with
      | Some v => validateValues v
      | None => None
      end
  | Some _ => Some "value must be of type object"
  end.

Definition isValidTransitionResponse (response : option Value)
  : bool * list LogEntry :=
  match validate response with
  | Some error =>
      (false,
       [mkLogEntry LogWarn
          ("Unexpected workflows response from Jira: " +:+ error +:+ ". "
           +:+ safeJsonStringify response)])
  | None => (true, [])
  end.

Definition getTransitionsFromService (workflowName : string)
  : Completion Value * list LogEntry :=
  match getSinglePage "/rest/api/3/workflow/search"
          [("expand", "transitions"); ("workflowName", workflowName)] with
  | Threw message => (Threw message, [])
  | Returned data =>
      let '(valid, log) := isValidTransitionResponse data in
      if negb valid then (Returned (VList []), log)
      else
        match prop data "values" with
        | Threw message => (Threw message, log)
        | Returned values =>
            match first values with
            | Threw message => (Threw message, log)
            | Returned workflowValues =>
                match prop workflowValues "transitions" with
                | Threw message => (Threw message, log)
                | Returned None | Returned (Some VNull) =>
                    (Returned (VList []), log)
                | Returned (Some transitions) => (Returned transitions, log)
                end
            end
        end
  end.

(** C9. When the body of the response fails the schema validation, the
    fetch of the transitions returns the empty sequence, it does not throw,
    and exactly one entry is logged, at warning level.  When the body is an
    object whose [values] is a sequence of exactly one well-formed workflow,
    the fetch returns the [transitions] of that workflow and logs nothing. *)
Theorem getTransitionsFromService_result workflowName data :
  getSinglePage "/rest/api/3/workflow/search"
    [("expand", "transitions"); ("workflowName", workflowName)]
  = Returned data →
  (∀ error, validate data = Some error →
     ∃ entry, getTransitionsFromService workflowName
              = (Returned (VList []), [entry])
              ∧ level entry = LogWarn) ∧
  (∀ members workflow transitions,
     data = Some (VObject members) →
     getMember "values" members = Some (VList [VObject workflow]) →
     workflowSchema (VObject workflow) = None →
     getMember "transitions" workflow = Some (VList transitions) →
     getTransitionsFromService workflowName
     = (Returned (VList transitions), [])) ∧
  (∀ members workflow,
     data = Some (VObject members) →
     getMember "values" members = Some (VList [VObject workflow]) →
     workflowSchema (VObject workflow) = None →
     getMember "transitions" workflow = None →
     getTransitionsFromService workflowName = (Returned (VList []), [])).
Proof.
  intros Hpage. unfold getTransitionsFromService, isValidTransitionResponse.
  rewrite Hpage.
  assert (∀ members workflow,
            getMember "values" members = Some (VList [VObject workflow]) →
            workflowSchema (VObject workflow) = None →
            validate (Some (VObject members)) = None) as Hvalid.
  { intros members workflow Hvalues Hwf.
    unfold validate. rewrite Hvalues. unfold validateValues.
    cbn [list_find]. rewrite decide_False; [done|].
    rewrite Hwf. by intros [? ?]. }
  split; [|split].
  - intros error Herr. rewrite Herr. simpl. by eexists.
  - intros members workflow transitions -> Hvalues Hwf Htr.
    rewrite (Hvalid _ _ Hvalues Hwf).
    cbn [negb prop]. rewrite Hvalues. cbn [first head prop]. by rewrite Htr.
  - intros members workflow -> Hvalues Hwf Htr.
    rewrite (Hvalid _ _ Hvalues Hwf).
    cbn [negb prop]. rewrite Hvalues. cbn [first head prop]. by rewrite Htr.
Qed.

(** A body that passes the validation without a [values] key makes the
    fetch throw: the schema leaves the key optional. *)
Lemma getTransitionsFromService_no_values workflowName members :
  getSinglePage "/rest/api/3/workflow/search"
    [("expand", "transitions"); ("workflowName", workflowName)]
  = Returned (Some (VObject members)) →
  getMember "values" members = None →
  ∃ message, getTransitionsFromService workflowName = (Threw message, []).
Proof.
  intros Hpage Hvalues.
  unfold getTransitionsFromService, isValidTransitionResponse.
  rewrite Hpage. unfold validate. rewrite Hvalues.
  cbn [negb prop]. rewrite Hvalues. by eexists.
Qed.

End Transitions.

(** A service that answers with one workflow, and one that answers with a
    page of two. *)
Definition objectSchema (v : Value) : option string :=
  match v with
  | VObject _ => None
  | _ => Some "value must be of type object"
  end.

Definition reviewWorkflow : Value :=
  VObject [("name", VString "review");
           ("transitions",
            VList [VObject [("id", VString "1"); ("name", VString "Create")]])].

Definition oneWorkflowPage (url : string) (queryParams : list (string * string))
  : Completion (option Value) :=
  Returned (Some (VObject [("total", VNumber 1);
                           ("values", VList [reviewWorkflow])])).

Definition twoWorkflowsPage (url : string) (queryParams : list (string * string))
  : Completion (option Value) :=
  Returned (Some (VObject [("values", VList [reviewWorkflow; reviewWorkflow])])).

Lemma getTransitionsFromService_result_witness :
  getTransitionsFromService objectSchema (λ _, "") oneWorkflowPage "review"
  = (Returned
       (VList [VObject [("id", VString "1"); ("name", VString "Create")]]),
     [])
  ∧ ∃ entry,
      getTransitionsFromService objectSchema (λ _, "") twoWorkflowsPage "review"
      = (Returned (VList []), [entry])
      ∧ level entry = LogWarn.
Proof.
  split.
  - refine (proj1 (proj2
      (getTransitionsFromService_result objectSchema (λ _, "") oneWorkflowPage
         "review" _ eq_refl)) _ _ _ eq_refl _ _ _); reflexivity.
  - refine (proj1
      (getTransitionsFromService_result objectSchema (λ _, "") twoWorkflowsPage
         "review" _ eq_refl) _ _); reflexivity.
Defined.

(** *** Deploying a batch of changes *)

(** A change of an element of the element model. *)
Abbreviation ElementChange := (Change Element).

Definition isInstanceChange (change : ElementChange) : bool :=
  isInstanceElement (getChangeData change).

(** [object[key] = v], where assigning [undefined] leaves the key without a
    defined value. *)
Definition assign (key : string) (v : option Value) (object : gmap string Value)
  : gmap string Value :=
  match v with
  | Some x => <[key := x]> object
  | None => delete key object
  end.

(** An error of a deploy result, attached to the change it comes from. *)
Record DeployError : Type := mkDeployError {
  error_change : ElementChange;
  error_message : string;
}.

Record DeployResult : Type := mkDeployResult {
  appliedChanges : list ElementChange;
  errors : list DeployError;
}.

Record FilterResult : Type := mkFilterResult {
  leftoverChanges : list ElementChange;
  deployResult : DeployResult;
}.

(** Modelled from the spec: [deployChanges] of the standard deployment
    module.  The deploy function is applied to each change independently; a
    change whose deployment returns is applied, a change whose deployment
    throws yields an error attached to it, and both kinds are accumulated and
    returned together. *)
Definition deployChanges (changes : list ElementChange)
    (deployChangeFunc : ElementChange → Completion ElementChange) : DeployResult :=
  mkDeployResult
    (omap (λ change, match deployChangeFunc change with
                     | Returned applied => Some applied
                     | Threw _ => None
                     end) changes)
    (omap (λ change, match deployChangeFunc change with
                     | Returned _ => None
                     | Threw message => Some (mkDeployError change message)
                     end) changes).

Section Deploy.

(** The constant [WORKFLOW_TYPE_NAME] of the constants file. *)
Variable WORKFLOW_TYPE_NAME : string.

(** What [deployWorkflow] does through the client before it writes back to
    the change (resolving the change, the default deployment, reading the
    transitions, deploying the triggers): it throws, or it ends with the
    [entityId] and [transitionIds] of the deployed instance. *)
Variable deployToService : ElementChange → Completion (option Value * option Value).

(** [deployWorkflow]; the change is updated in place, so the result is the
    change as the caller sees it afterwards. *)
Definition deployWorkflow (change : ElementChange) : Completion ElementChange :=
  match deployToService change with
  | Threw message => Threw message
  | Returned (entityId, transitionIds) =>
      match change with
      | AdditionChange (InstanceElement id value) =>
          Returned
            (AdditionChange
               (InstanceElement id
                  (assign "transitionIds" transitionIds
                     (assign "entityId" entityId value))))
      | _ => Returned change
      end
  end.

Definition isWorkflowAddition (change : ElementChange) : bool :=
  isInstanceChange change
  && isAdditionChange change
  && String.eqb (typeName (elemID (getChangeData change))) WORKFLOW_TYPE_NAME.

(** [filter.deploy]. *)
Definition deploy (changes : list ElementChange) : FilterResult :=
  let '(relevantChanges, leftoverChanges) :=
    List.partition isWorkflowAddition changes in
  let deployResult :=
    deployChanges
      (List.filter isAdditionChange
         (List.filter isInstanceChange relevantChanges))
      deployWorkflow in
  mkFilterResult leftoverChanges deployResult.

(** The input change as the caller sees it once [deploy] has run. *)
Definition afterDeploy (change : ElementChange) : ElementChange :=
  if isWorkflowAddition change
  then match deployWorkflow change with
       | Returned applied => applied
       | Threw _ => change
       end
  else change.

Definition appliedOf (change : ElementChange) : option ElementChange :=
  match deployWorkflow change with
  | Returned applied => Some applied
  | Threw _ => None
  end.

Definition errorOf (change : ElementChange) : option DeployError :=
  match deployWorkflow change with
  | Returned _ => None
  | Threw message => Some (mkDeployError change message)
  end.

Lemma omap_cons {A B} (f : A → option B) (x : A) (l : list A) :
  omap f (x :: l)
  = match f x with Some y => y :: omap f l | None => omap f l end.
Proof. reflexivity. Qed.

Lemma filter_implied {A} (p q : A → bool) (l : list A) :
  (∀ x, p x = true → q x = true) →
  List.filter q (List.filter p l) = List.filter p l.
Proof.
  intros Hpq. induction l as [|x l IH]; [done|]. simpl.
  destruct (p x) eqn:Hp; [|done]. simpl. by rewrite (Hpq x Hp), IH.
Qed.

(** The two buckets of [deploy] in terms of its input: the second and third
    filters of the relevant changes keep all of them. *)
Lemma deploy_unfold changes :
  deploy changes
  = mkFilterResult
      (List.filter (λ change, negb (isWorkflowAddition change)) changes)
      (mkDeployResult
         (omap appliedOf (List.filter isWorkflowAddition changes))
         (omap errorOf (List.filter isWorkflowAddition changes))).
Proof.
  unfold deploy. rewrite partition_as_filter.
  rewrite (filter_implied isWorkflowAddition isInstanceChange).
  2:{ intros change. unfold isWorkflowAddition.
      by intros [[? _]%andb_prop _]%andb_prop. }
  rewrite (filter_implied isWorkflowAddition isAdditionChange).
  2:{ intros change. unfold isWorkflowAddition.
      by intros [[_ ?]%andb_prop _]%andb_prop. }
  done.
Qed.

Lemma deploy_buckets_permutation changes :
  Permutation
    (omap appliedOf (List.filter isWorkflowAddition changes)
     ++ List.filter (λ change, negb (isWorkflowAddition change)) changes
     ++ (error_change <$> omap errorOf (List.filter isWorkflowAddition changes)))
    (afterDeploy <$> changes).
Proof.
  induction changes as [|change changes IH]; [constructor|].
  cbn [List.filter fmap list_fmap]. unfold afterDeploy at 1.
  destruct (isWorkflowAddition change) eqn:Hrel; cbn [negb].
  - rewrite !omap_cons.
    destruct (deployWorkflow change) as [applied|message] eqn:Hdeploy.
    + assert (appliedOf change = Some applied) as ->
        by (unfold appliedOf; by rewrite Hdeploy).
      assert (errorOf change = None) as ->
        by (unfold errorOf; by rewrite Hdeploy).
      rewrite <- app_comm_cons. apply perm_skip, IH.
    + assert (appliedOf change = None) as ->
        by (unfold appliedOf; by rewrite Hdeploy).
      assert (errorOf change = Some (mkDeployError change message)) as ->
        by (unfold errorOf; by rewrite Hdeploy).
      cbn [fmap list_fmap error_change].
      symmetry. etrans; [apply perm_skip; symmetry; apply IH|].
      rewrite !app_assoc. apply Permutation_middle.
  - rewrite <- app_comm_cons.
    symmetry. etrans; [apply perm_skip; symmetry; apply IH|].
    apply Permutation_middle.
Qed.

(** C7. The buckets of [deploy] partition its input: the applied changes,
    the leftover changes and the changes that the errors are attached to are,
    taken together, the input changes once each (as the caller sees them
    after the in-place update of the deployed ones), so the three sizes add
    up to the size of the input.  The leftovers are the input changes that
    fail the applicability predicate, in order and unmodified; an applied
    change is an applicable input change whose deployment returned, an
    errored one an applicable input change whose deployment threw. *)
Theorem deploy_partition changes :
  let result := deploy changes in
  let applied := appliedChanges (deployResult result) in
  let leftover := leftoverChanges result in
  let errored := error_change <$> errors (deployResult result) in
  Permutation (applied ++ leftover ++ errored) (afterDeploy <$> changes)
  ∧ (length applied + length leftover + length errored = length changes)%nat
  ∧ leftover
    = List.filter (λ change, negb (isWorkflowAddition change)) changes
  ∧ Forall (λ change, change ∈ changes ∧ isWorkflowAddition change = false
                      ∧ afterDeploy change = change) leftover
  ∧ Forall (λ change, ∃ input, input ∈ changes
                        ∧ isWorkflowAddition input = true
                        ∧ deployWorkflow input = Returned change) applied
  ∧ Forall (λ change, change ∈ changes ∧ isWorkflowAddition change = true
                      ∧ ∃ message, deployWorkflow change = Threw message)
      errored.
Proof.
  intros result applied leftover errored.
  subst result applied leftover errored. rewrite deploy_unfold.
  cbn [deployResult leftoverChanges appliedChanges errors].
  pose proof (deploy_buckets_permutation changes) as Hperm.
  split; [done|]. split.
  { apply Permutation_length in Hperm.
    rewrite !length_app, !length_fmap in Hperm. rewrite !length_fmap. lia. }
  split; [done|]. split; [|split].
  - apply Forall_forall. intros change Hin.
    apply list_elem_of_In, filter_In in Hin as [Hin Hrel%negb_true_iff].
    split; [by apply list_elem_of_In|]. split; [done|].
    unfold afterDeploy. by rewrite Hrel.
  - apply Forall_forall. intros change Hin.
    apply list_elem_of_omap in Hin as (input & Hin & Happlied).
    apply list_elem_of_In, filter_In in Hin as [Hin Hrel].
    exists input. split; [by apply list_elem_of_In|]. split; [done|].
    unfold appliedOf in Happlied.
    destruct (deployWorkflow input); by simplify_eq.
  - apply Forall_forall. intros change Hin.
    apply list_elem_of_fmap in Hin as (error & -> & Hin).
    apply list_elem_of_omap in Hin as (input & Hin & Herror).
    apply list_elem_of_In, filter_In in Hin as [Hin Hrel].
    unfold errorOf in Herror.
    destruct (deployWorkflow input) as [|message] eqn:Hdeploy; simplify_eq.
    simpl. split; [by apply list_elem_of_In|]. split; [done|]. by eexists.
Qed.

End Deploy.

(** A batch of three changes: a workflow whose deployment returns, a
    workflow whose deployment throws, and a modification, which is not
    applicable. *)
Definition workflowInstance (name : string) : Element :=
  InstanceElement (mkElemID "jira" "Workflow" "instance" [name])
    {[ "name" := VString name ]}.

Definition failsOnDraft (change : ElementChange)
  : Completion (option Value * option Value) :=
  match nameParts (elemID (getChangeData change)) with
  | ["draft"] => Threw "instance is not valid for deployment"
  | _ => Returned (Some (VString "entity-1"), None)
  end.

Example deploy_three_changes :
  deploy "Workflow" failsOnDraft
    [AdditionChange (workflowInstance "review");
     ModificationChange (workflowInstance "old") (workflowInstance "new");
     AdditionChange (workflowInstance "draft")]
  = mkFilterResult
      [ModificationChange (workflowInstance "old") (workflowInstance "new")]
      (mkDeployResult
         [AdditionChange
            (InstanceElement (mkElemID "jira" "Workflow" "instance" ["review"])
               {[ "name" := VString "review";
                  "entityId" := VString "entity-1" ]})]
         [mkDeployError (AdditionChange (workflowInstance "draft"))
            "instance is not valid for deployment"]).
Proof. by vm_compute. Qed.

(** *** The validator that the service adds to the initial transition *)

(** [_.isEqual] on plain data: primitives by value, arrays member by member,
    objects by their keys and the values under them, whatever the order of
    the keys. *)
Fixpoint isEqual (a b : Value) {struct a} : bool :=
  match a, b with
  | VString s, VString t => String.eqb s t
  | VNumber m, VNumber n => Z.eqb m n
  | VBool x, VBool y => Bool.eqb x y
  | VNull, VNull => true
  | VList xs, VList ys =>
      (fix members (xs ys : list Value) : bool :=
         match xs, ys with
         | [], [] => true
         | x :: xs', y :: ys' => isEqual x y && members xs' ys'
         | _, _ => false
         end) xs ys
  | VObject ms, VObject ns =>
      (fix each (ms : list (string * Value)) : bool :=
         match ms with
         | [] => true
         | (k, v) :: ms' =>
             match getMember k ns with
             | Some w => isEqual v w
             | None => false
             end && each ms'
         end) ms
      && forallb (λ kv, bool_decide (is_Some (getMember kv.1 ms))) ns
  | VRef s, VRef t => bool_decide (s = t)
  | _, _ => false
  end.

Definition INITIAL_VALIDATOR : Value :=
  VObject [("type", VString "PermissionValidator");
           ("configuration",
            VObject [("permissionKey", VString "CREATE_ISSUES")])].

(** [_.findLastIndex(array, predicate)]: the index of the last member that
    satisfies the predicate, or -1. *)
Fixpoint findLastIndexFrom {A} (predicate : A → bool) (index found : Z)
    (array : list A) : Z :=
  match array with
  | [] => found
  | x :: rest =>
      findLastIndexFrom predicate (index + 1)
        (if predicate x then index else found) rest
  end.

Definition findLastIndex {A} (array : list A) (predicate : A → bool) : Z :=
  findLastIndexFrom predicate 0 (-1) array.

(** [_.remove(array, predicate)], the predicate taking the value and its
    index: the array as it is afterwards. *)
Fixpoint removeFrom {A} (predicate : A → Z → bool) (index : Z)
    (array : list A) : list A :=
  match array with
  | [] => []
  | x :: rest =>
      if predicate x index then removeFrom predicate (index + 1) rest
      else x :: removeFrom predicate (index + 1) rest
  end.

Definition remove {A} (array : list A) (predicate : A → Z → bool) : list A :=
  removeFrom predicate 0 array.

(** The members of the workflow types that the filter reads; the other
    members of a value are carried along in the last field. *)
Record Rules : Type := mkRules {
  validators : option (list Value);
  rules_others : gmap string Value;
}.

Record Transition : Type := mkTransition {
  transition_type : option string;
  rules : option Rules;
  transition_others : gmap string Value;
}.

Record WorkflowInstance : Type := mkWorkflowInstance {
  instance_elemID : ElemID;
  transitions : option (list Transition);
  instance_others : gmap string Value;
}.

(** [transition.rules?.validators ?? []]. *)
Definition validatorsOf (transition : Transition) : list Value :=
  match rules transition with
  | Some r => default [] (validators r)
  | None => []
  end.

(** The transition once [_.remove] has updated its validators in place; when
    the transition has no validators the array that is updated is the fresh
    empty one, and the transition stays as it is. *)
Definition withValidators (transition : Transition) (updated : list Value)
  : Transition :=
  match rules transition with
  | Some r =>
      match validators r with
      | Some _ =>
          mkTransition (transition_type transition)
            (Some (mkRules (Some updated) (rules_others r)))
            (transition_others transition)
      | None => transition
      end
  | None => transition
  end.

Definition isInitialValidator (validator : Value) : bool :=
  isEqual validator INITIAL_VALIDATOR.

(** The body of the [forEach]. *)
Definition removeFromTransition (transition : Transition) : Transition :=
  let createIssuePermissionValidatorIndex :=
    findLastIndex (validatorsOf transition) isInitialValidator in
  withValidators transition
    (remove (validatorsOf transition)
       (λ _validator index, Z.eqb index createIssuePermissionValidatorIndex)).

Definition isInitial (transition : Transition) : bool :=
  bool_decide (transition_type transition = Some "initial").

Definition removeCreateIssuePermissionValidator (instance : WorkflowInstance)
  : WorkflowInstance :=
  match transitions instance with
  | Some all =>
      mkWorkflowInstance (instance_elemID instance)
        (Some ((λ transition,
                  if isInitial transition
                  then removeFromTransition transition
                  else transition) <$> all))
        (instance_others instance)
  | None => instance
  end.

(** The validators of the [k]-th transition of an instance. *)
Definition validatorsAt (instance : WorkflowInstance) (k : nat)
  : option (list Value) :=
  match transitions instance with
  | Some all => validatorsOf <$> all !! k
  | None => None
  end.

Lemma findLastIndexFrom_none {A} (p : A → bool) array : ∀ index found,
  Forall (λ x, p x = false) array →
  findLastIndexFrom p index found array = found.
Proof.
  induction array as [|x rest IH]; intros index found Hnone; [done|].
  apply Forall_cons in Hnone as [Hx Hrest]. simpl. rewrite Hx. by apply IH.
Qed.

Lemma findLastIndexFrom_last {A} (p : A → bool) v after before :
  ∀ index found,
  p v = true → Forall (λ x, p x = false) after →
  findLastIndexFrom p index found (before ++ v :: after)
  = (index + Z.of_nat (length before))%Z.
Proof.
  induction before as [|x before IH]; intros index found Hv Hafter.
  - simpl. rewrite Hv, findLastIndexFrom_none by done. lia.
  - cbn [app findLastIndexFrom length]. rewrite IH by done. lia.
Qed.

Lemma removeFrom_miss {A} (array : list A) : ∀ index k,
  (k < index ∨ index + Z.of_nat (length array) ≤ k)%Z →
  removeFrom (λ _ i, Z.eqb i k) index array = array.
Proof.
  induction array as [|x rest IH]; intros index k Hk; [done|].
  cbn [removeFrom length] in *.
  destruct (Z.eqb_spec index k) as [->|_]; [lia|].
  rewrite IH; [done|lia].
Qed.

Lemma removeFrom_hit {A} (v : A) after before : ∀ index,
  removeFrom (λ _ i, Z.eqb i (index + Z.of_nat (length before))) index
    (before ++ v :: after)
  = (before ++ after)%list.
Proof.
  induction before as [|x before IH]; intros index.
  - cbn [app removeFrom length].
    rewrite (proj2 (Z.eqb_eq _ _)) by lia.
    apply removeFrom_miss. lia.
  - cbn [app removeFrom length].
    destruct (Z.eqb_spec index (index + Z.of_nat (S (length before))))
      as [Heq|_]; [lia|].
    f_equal.
    replace (index + Z.of_nat (S (length before)))%Z
      with (index + 1 + Z.of_nat (length before))%Z by lia.
    apply IH.
Qed.

(** A list has no member that satisfies [p], or it has a last one. *)
Lemma last_match {A} (p : A → bool) (l : list A) :
  Forall (λ x, p x = false) l
  ∨ ∃ before v after,
      l = (before ++ v :: after)%list ∧ p v = true
      ∧ Forall (λ x, p x = false) after.
Proof.
  induction l as [|x l [Hnone|(before & v & after & -> & Hv & Hafter)]].
  - by left.
  - destruct (p x) eqn:Hx.
    + right. by exists [], x, l.
    + left. by constructor.
  - right. by exists (x :: before), v, after.
Qed.

Lemma withValidators_same transition :
  withValidators transition (validatorsOf transition) = transition.
Proof.
  destruct transition as [type [[[vs|] others]|] rest]; done.
Qed.

Lemma removeFromTransition_miss transition :
  Forall (λ w, isInitialValidator w = false) (validatorsOf transition) →
  removeFromTransition transition = transition.
Proof.
  intros Hnone. unfold removeFromTransition, findLastIndex, remove. cbv zeta.
  rewrite findLastIndexFrom_none by done.
  rewrite removeFrom_miss by lia. apply withValidators_same.
Qed.

Lemma removeFromTransition_hit transition r before v after :
  rules transition = Some r →
  validators r = Some (before ++ v :: after)%list →
  isInitialValidator v = true →
  Forall (λ w, isInitialValidator w = false) after →
  removeFromTransition transition
  = mkTransition (transition_type transition)
      (Some (mkRules (Some (before ++ after)%list) (rules_others r)))
      (transition_others transition).
Proof.
  intros Hrules Hvalidators Hv Hafter.
  assert (validatorsOf transition = (before ++ v :: after)%list) as Heq.
  { unfold validatorsOf. by rewrite Hrules, Hvalidators. }
  unfold removeFromTransition, findLastIndex, remove. cbv zeta.
  rewrite Heq, findLastIndexFrom_last, removeFrom_hit by done.
  unfold withValidators. by rewrite Hrules, Hvalidators.
Qed.

(** X9. In a transition of type [initial], the last validator equal to the
    create-issues permission validator is removed, and only that one: the
    validators before it and after it stay in place, in order, and so do the
    other members of the transition and of its rules. *)
Theorem removeCreateIssuePermissionValidator_last
    instance all k transition r before v after :
  transitions instance = Some all →
  all !! k = Some transition →
  transition_type transition = Some "initial" →
  rules transition = Some r →
  validators r = Some (before ++ v :: after)%list →
  isEqual v INITIAL_VALIDATOR = true →
  Forall (λ w, isEqual w INITIAL_VALIDATOR = false) after →
  ∃ all',
    transitions (removeCreateIssuePermissionValidator instance) = Some all'
    ∧ all' !! k
      = Some (mkTransition (Some "initial")
                (Some (mkRules (Some (before ++ after)%list) (rules_others r)))
                (transition_others transition)).
Proof.
  intros Hall Hk Htype Hrules Hvalidators Hv Hafter.
  unfold removeCreateIssuePermissionValidator. rewrite Hall.
  eexists. split; [reflexivity|].
  rewrite list_lookup_fmap, Hk. cbn [fmap option_fmap option_map].
  unfold isInitial. rewrite bool_decide_eq_true_2 by done.
  rewrite (removeFromTransition_hit _ r before v after) by done.
  by rewrite Htype.
Qed.

(** X10. The filter touches nothing else: an instance without transitions
    stays as it is; otherwise the instance keeps its identifier, its other
    members and the number of its transitions, and a transition that is not
    of type [initial], or that has no validator equal to the create-issues
    permission validator, stays as it is. *)
Theorem removeCreateIssuePermissionValidator_keeps instance :
  instance_elemID (removeCreateIssuePermissionValidator instance)
  = instance_elemID instance
  ∧ instance_others (removeCreateIssuePermissionValidator instance)
    = instance_others instance
  ∧ (transitions instance = None →
     removeCreateIssuePermissionValidator instance = instance)
  ∧ (∀ all, transitions instance = Some all →
       ∃ all',
         transitions (removeCreateIssuePermissionValidator instance)
         = Some all'
         ∧ length all' = length all
         ∧ ∀ k transition,
             all !! k = Some transition →
             transition_type transition ≠ Some "initial"
             ∨ Forall (λ w, isEqual w INITIAL_VALIDATOR = false)
                 (validatorsOf transition) →
             all' !! k = Some transition).
Proof.
  unfold removeCreateIssuePermissionValidator.
  destruct (transitions instance) as [all|] eqn:Hall; [|done].
  split; [done|]. split; [done|]. split; [done|].
  intros ? [= <-]. eexists. split; [reflexivity|].
  split; [apply length_fmap|].
  intros k transition Hk Hsame. rewrite list_lookup_fmap, Hk.
  cbn [fmap option_fmap option_map]. f_equal.
  destruct (isInitial transition) eqn:Hinitial; [|done].
  destruct Hsame as [Htype|Hnone].
  - unfold isInitial in Hinitial. by apply bool_decide_eq_true in Hinitial.
  - by apply removeFromTransition_miss.
Qed.

(** X11. The filter removes at most one validator from a transition, and
    never a validator that differs from the create-issues permission
    validator: the validators that differ from it are the same before and
    after, in the same order. *)
Theorem removeCreateIssuePermissionValidator_at_most_one instance k before :
  validatorsAt instance k = Some before →
  ∃ after,
    validatorsAt (removeCreateIssuePermissionValidator instance) k = Some after
    ∧ List.filter (λ w, negb (isEqual w INITIAL_VALIDATOR)) after
      = List.filter (λ w, negb (isEqual w INITIAL_VALIDATOR)) before
    ∧ (length after ≤ length before)%nat
    ∧ (length before ≤ length after + 1)%nat.
Proof.
  unfold validatorsAt, removeCreateIssuePermissionValidator.
  destruct (transitions instance) as [all|]; [|done].
  cbn [transitions]. rewrite list_lookup_fmap.
  destruct (all !! k) as [transition|]; [|done].
  cbn [fmap option_fmap option_map]. intros [= <-].
  eexists. split; [reflexivity|].
  destruct (isInitial transition); [|split; [done|lia]].
  destruct (last_match isInitialValidator (validatorsOf transition))
    as [Hnone|(l1 & v & l2 & Heq & Hv & Hl2)].
  - rewrite removeFromTransition_miss by done. split; [done|lia].
  - assert (∃ r, rules transition = Some r
                 ∧ validators r = Some (l1 ++ v :: l2)%list) as (r & Hr & Hvs).
    { unfold validatorsOf in Heq.
      destruct (rules transition) as [r|]; [|by destruct l1].
      exists r. split; [done|].
      destruct (validators r); [by simplify_eq/=|by destruct l1]. }
    rewrite (removeFromTransition_hit _ r l1 v l2) by done.
    rewrite Heq. unfold validatorsOf.
    cbn [rules validators default from_option id].
    rewrite !List.filter_app. cbn [List.filter].
    unfold isInitialValidator in Hv. rewrite Hv. cbn [negb].
    split; [done|]. rewrite !length_app. simpl. lia.
Qed.

(** A workflow whose initial transition has the validator of the service
    twice, once with its keys in the other order, and a global transition
    that has it as well. *)
Definition reorderedValidator : Value :=
  VObject [("configuration",
            VObject [("permissionKey", VString "CREATE_ISSUES")]);
           ("type", VString "PermissionValidator")].

Definition fieldValidator : Value :=
  VObject [("type", VString "FieldRequiredValidator")].

Definition createTransition : Transition :=
  mkTransition (Some "initial")
    (Some (mkRules
             (Some [INITIAL_VALIDATOR; fieldValidator; reorderedValidator;
                    fieldValidator])
             ∅))
    {[ "name" := VString "Create" ]}.

Definition closeTransition : Transition :=
  mkTransition (Some "global") (Some (mkRules (Some [INITIAL_VALIDATOR]) ∅))
    {[ "name" := VString "Close" ]}.

Definition reviewInstance : WorkflowInstance :=
  mkWorkflowInstance (mkElemID "jira" "Workflow" "instance" ["review"])
    (Some [createTransition; closeTransition])
    {[ "name" := VString "review" ]}.

Example isEqual_samples :
  isEqual reorderedValidator INITIAL_VALIDATOR = true
  ∧ isEqual fieldValidator INITIAL_VALIDATOR = false
  ∧ isEqual
      (VObject [("type", VString "PermissionValidator");
                ("configuration",
                 VObject [("permissionKey", VString "CREATE_ISSUES")]);
                ("id", VNumber 1)])
      INITIAL_VALIDATOR = false.
Proof. by vm_compute. Qed.

Lemma removeCreateIssuePermissionValidator_last_witness :
  ∃ all',
    transitions (removeCreateIssuePermissionValidator reviewInstance)
    = Some all'
    ∧ all' !! 0%nat
      = Some (mkTransition (Some "initial")
                (Some (mkRules
                         (Some [INITIAL_VALIDATOR; fieldValidator;
                                fieldValidator])
                         ∅))
                {[ "name" := VString "Create" ]}).
Proof.
  refine (removeCreateIssuePermissionValidator_last reviewInstance
            [createTransition; closeTransition] 0 createTransition
            (mkRules
               (Some [INITIAL_VALIDATOR; fieldValidator; reorderedValidator;
                      fieldValidator]) ∅)
            [INITIAL_VALIDATOR; fieldValidator] reorderedValidator
            [fieldValidator] _ _ _ _ _ _ _); try reflexivity.
  constructor; [reflexivity|constructor].
Defined.

Lemma removeCreateIssuePermissionValidator_keeps_witness :
  ∃ all',
    transitions (removeCreateIssuePermissionValidator reviewInstance)
    = Some all'
    ∧ length all' = 2%nat
    ∧ all' !! 1%nat = Some closeTransition.
Proof.
  destruct (proj2 (proj2 (proj2
              (removeCreateIssuePermissionValidator_keeps reviewInstance)))
              [createTransition; closeTransition] eq_refl)
    as (all' & Hall' & Hlen & Hkeeps).
  exists all'. split; [exact Hall'|]. split; [exact Hlen|].
  apply Hkeeps; [reflexivity|]. left. discriminate.
Defined.

Lemma removeCreateIssuePermissionValidator_at_most_one_witness :
  ∃ after,
    validatorsAt (removeCreateIssuePermissionValidator reviewInstance) 0
    = Some after
    ∧ List.filter (λ w, negb (isEqual w INITIAL_VALIDATOR)) after
      = [fieldValidator; fieldValidator]
    ∧ (length after ≤ 4)%nat
    ∧ (4 ≤ length after + 1)%nat.
Proof.
  refine (removeCreateIssuePermissionValidator_at_most_one reviewInstance 0
            [INITIAL_VALIDATOR; fieldValidator; reorderedValidator;
             fieldValidator] _).
  reflexivity.
Defined.

(** *** The responses that the validation accepts *)

Lemma validateValues_accepts workflowSchema v :
  validateValues workflowSchema v = None
  ↔ ∃ workflow, v = VList [workflow] ∧ workflowSchema workflow = None.
Proof.
  unfold validateValues. split.
  - destruct v as [| | | |items| |]; try done.
    destruct (list_find _ items) as [[k item]|] eqn:Hfind.
    { apply list_find_Some in Hfind as (_ & [e He] & _). congruence. }
    apply list_find_None in Hfind.
    destruct items as [|workflow [|other items]]; try done.
    intros _. exists workflow. split; [done|].
    apply Forall_cons in Hfind as [Hwf _].
    by apply eq_None_not_Some.
  - intros (workflow & -> & Hwf). cbn [list_find].
    rewrite decide_False; [done|]. rewrite Hwf. by intros [? ?].
Qed.

Lemma isValidTransitionResponse_true workflowSchema safeJsonStringify
    response :
  (isValidTransitionResponse workflowSchema safeJsonStringify response).1
  = true
  ↔ ∃ members,
      response = Some (VObject members)
      ∧ (getMember "values" members = None
         ∨ ∃ workflow,
             getMember "values" members = Some (VList [workflow])
             ∧ workflowSchema workflow = None).
Proof.
  unfold isValidTransitionResponse.
  destruct (validate workflowSchema response) as [error|] eqn:Hvalidate;
    cbn [fst]; unfold validate in Hvalidate.
  - split; [done|]. intros (members & -> & Hvalues).
    destruct Hvalues as [Hnone|(workflow & Hsome & Hwf)].
    + by rewrite Hnone in Hvalidate.
    + rewrite Hsome in Hvalidate.
      assert (validateValues workflowSchema (VList [workflow]) = None) as Hok
        by (apply validateValues_accepts; by exists workflow).
      congruence.
  - split; [intros _|done].
    destruct response as [[| | | | |members|]|]; try done.
    exists members. split; [done|].
    destruct (getMember "values" members) as [v|]; [|by left].
    right. apply validateValues_accepts in Hvalidate as (workflow & -> & Hwf).
    by exists workflow.
Qed.

(** X12. [isValidTransitionResponse] accepts exactly the bodies that are
    objects and that either have no [values] key or have, under it, a
    sequence of exactly one well-formed workflow; it logs nothing when it
    accepts and exactly one entry, a warning, when it rejects. *)
Theorem isValidTransitionResponse_accepts workflowSchema safeJsonStringify
    response :
  let result :=
    isValidTransitionResponse workflowSchema safeJsonStringify response in
  (result.1 = true
   ↔ ∃ members,
       response = Some (VObject members)
       ∧ (getMember "values" members = None
          ∨ ∃ workflow,
              getMember "values" members = Some (VList [workflow])
              ∧ workflowSchema workflow = None))
  ∧ (if result.1 then result.2 = []
     else ∃ entry, result.2 = [entry] ∧ level entry = LogWarn).
Proof.
  intros result. subst result.
  split; [apply isValidTransitionResponse_true|].
  unfold isValidTransitionResponse.
  destruct (validate workflowSchema response); cbn [fst snd]; [|done].
  by eexists.
Qed.

(** X13. When the schema of a workflow accepts objects only, the fetch of
    the transitions throws in exactly two cases: the client throws, or the
    body is an object without a [values] key, which passes the validation and
    fails at [values[0]]. *)
Theorem getTransitionsFromService_throws workflowSchema safeJsonStringify
    getSinglePage workflowName :
  (∀ v, workflowSchema v = None → ∃ members, v = VObject members) →
  (∃ message,
     (getTransitionsFromService workflowSchema safeJsonStringify getSinglePage
        workflowName).1 = Threw message)
  ↔ (∃ message,
       getSinglePage "/rest/api/3/workflow/search"
         [("expand", "transitions"); ("workflowName", workflowName)]
       = Threw message)
    ∨ (∃ members,
         getSinglePage "/rest/api/3/workflow/search"
           [("expand", "transitions"); ("workflowName", workflowName)]
         = Returned (Some (VObject members))
         ∧ getMember "values" members = None).
Proof.
  intros Hobjects. unfold getTransitionsFromService.
  destruct (getSinglePage _ _) as [data|message] eqn:Hpage.
  2:{ split; [intros _; left; by eexists|intros _; by eexists]. }
  pose proof (isValidTransitionResponse_true workflowSchema
                safeJsonStringify data) as Haccepts.
  destruct (isValidTransitionResponse _ _ data) as [valid log].
  cbn [fst] in Haccepts. destruct valid; cbn [negb].
  - destruct (proj1 Haccepts eq_refl) as (members & -> & Hvalues).
    cbn [prop].
    destruct Hvalues as [Hnone|(workflow & Hsome & Hwf)].
    + rewrite Hnone. cbn [first fst].
      split; [intros _; right; by exists members|intros _; by eexists].
    + rewrite Hsome. cbn [first head].
      destruct (Hobjects _ Hwf) as (wmembers & ->). cbn [prop].
      split.
      * intros [message Hthrew].
        destruct (getMember "transitions" wmembers) as [[]|]; done.
      * intros [[message [=]]|(members' & [= <-] & Hnone)]. congruence.
  - cbn [fst]. split; [by intros [message [=]]|].
    intros [[message [=]]|(members & [= ->] & Hnone)].
    assert (false = true) as [=].
    apply Haccepts. exists members. split; [done|by left].
Qed.

(** *** What a deployment writes back *)

(** X14. A deployment that returns changes the change only in the
    [entityId] and [transitionIds] of its instance: they become the ones of
    the deployed instance, the change stays an addition of the same element
    and every other member of the value is kept.  A change that is not the
    addition of an instance comes back as it is. *)
Theorem deployWorkflow_writes_back deployToService change applied :
  deployWorkflow deployToService change = Returned applied →
  elemID (getChangeData applied) = elemID (getChangeData change)
  ∧ isAdditionChange applied = isAdditionChange change
  ∧ (isInstanceChange change && isAdditionChange change = false →
     applied = change)
  ∧ (∀ id value, change = AdditionChange (InstanceElement id value) →
       ∃ entityId transitionIds value',
         deployToService change = Returned (entityId, transitionIds)
         ∧ applied = AdditionChange (InstanceElement id value')
         ∧ value' !! "entityId" = entityId
         ∧ value' !! "transitionIds" = transitionIds
         ∧ ∀ key, key ≠ "entityId" → key ≠ "transitionIds" →
                  value' !! key = value !! key).
Proof.
  unfold deployWorkflow.
  destruct (deployToService change) as [[entityId transitionIds]|message];
    [|done].
  assert (∀ key v (object : gmap string Value) other,
            assign key v object !! other
            = if decide (key = other) then v else object !! other) as Hassign.
  { intros key v object other. unfold assign.
    destruct v as [x|]; [apply lookup_insert|].
    rewrite lookup_delete. by case_decide. }
  destruct change as [[id value| |]| |]; intros [= <-];
    (split; [done|]); (split; [done|]); (split; [done|]);
    intros id' value' [= <- <-] || intros id' value' [=].
  eexists entityId, transitionIds, _. split; [done|]. split; [done|].
  rewrite !Hassign. split; [done|]. split; [done|].
  intros key Hk1 Hk2. rewrite !Hassign.
  rewrite decide_False by done. by rewrite decide_False.
Qed.

Lemma getTransitionsFromService_throws_witness :
  (∃ message,
     (getTransitionsFromService objectSchema (λ _, "")
        (λ _ _, Returned (Some (VObject [("total", VNumber 0)])))
        "review").1 = Threw message).
Proof.
  refine (proj2
    (getTransitionsFromService_throws objectSchema (λ _, "")
       (λ _ _, Returned (Some (VObject [("total", VNumber 0)])))
       "review" _) _).
  - intros v Hv. destruct v; try discriminate Hv. by eexists.
  - right. exists [("total", VNumber 0)]. split; reflexivity.
Defined.

Lemma deployWorkflow_writes_back_witness :
  ∃ entityId transitionIds value',
    failsOnDraft (AdditionChange (workflowInstance "review"))
    = Returned (entityId, transitionIds)
    ∧ AdditionChange
        (InstanceElement (mkElemID "jira" "Workflow" "instance" ["review"])
           {[ "name" := VString "review"; "entityId" := VString "entity-1" ]})
      = AdditionChange
          (InstanceElement (mkElemID "jira" "Workflow" "instance" ["review"])
             value')
    ∧ value' !! "entityId" = entityId
    ∧ value' !! "transitionIds" = transitionIds
    ∧ ∀ key, key ≠ "entityId" → key ≠ "transitionIds" →
             value' !! key
             = ({[ "name" := VString "review" ]} : gmap string Value) !! key.
Proof.
  refine (proj2 (proj2 (proj2
    (deployWorkflow_writes_back failsOnDraft
       (AdditionChange (workflowInstance "review")) _ _)))
    (mkElemID "jira" "Workflow" "instance" ["review"])
    {[ "name" := VString "review" ]} _).
  - by vm_compute.
  - reflexivity.
Defined.

End WorkflowDeploy.

(** ** The validator of an adapter without deploy support *)

Module DeployNotSupported.

Inductive Severity : Type := SeverityError | SeverityWarning | SeverityInfo.

Record ChangeError : Type := mkChangeError {
  error_elemID : ElemID;
  severity : Severity;
  message : string;
  detailedMessage : string;
}.

(** [deployNotSupportedValidator]; [getChangeElement] is the element of the
    change, as [getChangeData] is. *)
Definition deployNotSupportedValidator (changes : list (Change Element))
  : list ChangeError :=
  (λ change,
     mkChangeError (elemID (getChangeData change)) SeverityError
       ("Deploy is not supported in adapter "
        +:+ adapter (elemID (getChangeData change)) +:+ ".")
       "Deploy is not supported.") <$> changes.

(** X15. The validator rejects every change: it reports exactly one error
    per change, in the order of the changes and on the element of each, all
    of severity [Error], so that only the empty batch passes without an
    error. *)
Theorem deployNotSupportedValidator_rejects_all changes :
  error_elemID <$> deployNotSupportedValidator changes
  = (λ change, elemID (getChangeData change)) <$> changes
  ∧ Forall (λ error, severity error = SeverityError)
      (deployNotSupportedValidator changes)
  ∧ (deployNotSupportedValidator changes = [] ↔ changes = []).
Proof.
  unfold deployNotSupportedValidator. split; [|split].
  - by rewrite <- list_fmap_compose.
  - apply Forall_fmap, Forall_true. done.
  - split; [apply fmap_nil_inv|by intros ->].
Qed.

End DeployNotSupported.

(** ** The Zendesk reorder filter (the ordered-collection deployer)

    The definitions of this module follow the specification of the deploy
    side of the ordered-collection deployer; the deploy fixtures of the
    test-suite of the automation kind are run against them. *)

Module Reorder.

(** Modelled from the spec: the ordered-collection record of the reorder
    filter creator, one ordered sequence of member identifiers. *)
Record OrderedCollection : Type := mkOrderedCollection {
  orderedSequence : list Value;
}.

(** Modelled from the spec: the two errors of the ordered-collection
    deployer. *)
Inductive OrderError : Type :=
| InvalidOrderChangeBatch
| InvalidMemberIdentifier.

(** One [{identifier, position}] pair of a payload. *)
Record Placement : Type := mkPlacement {
  identifier : Z;
  position : Z;
}.

(** What a deploy reports, together with the payloads of the requests that
    it issued. *)
Record Deployment : Type := mkDeployment {
  appliedChanges : list (Change OrderedCollection);
  errors : list OrderError;
  requests : list (list Placement);
}.

(** Modelled from the spec: the validation of the member identifiers of the
    reorder filter creator.  Every member key has to be of the primitive
    identifier type, an integer; a string of digits is not one. *)
Definition memberIdentifier (member : Value) : option Z :=
  match member with
  | VNumber n => Some n
  | _ => None
  end.

(** Modelled from the spec: the identifiers of all members, or nothing when
    one member is not valid. *)
Definition memberIdentifiers (members : list Value) : option (list Z) :=
  mapM memberIdentifier members.

(** Modelled from the spec: the payload of the reorder filter creator, the
    members of the after-sequence with their 1-based positions, numbered
    densely in the order of the sequence. *)
Definition render (identifiers : list Z) : list Placement :=
  imap (λ i id, mkPlacement id (Z.of_nat i + 1)) identifiers.

(** Modelled from the spec: [deploy] of the reorder filter creator.  The
    batch has to be exactly one change, a modification; the member
    identifiers of its after-sequence have to be valid; then one request
    carries the whole payload.  A failed validation yields one error for the
    batch and deploys nothing. *)
Definition deploy (changes : list (Change OrderedCollection)) : Deployment :=
  match changes with
  | [ModificationChange before after] =>
      match memberIdentifiers (orderedSequence after) with
      | Some identifiers => mkDeployment changes [] [render identifiers]
      | None => mkDeployment [] [InvalidMemberIdentifier] []
      end
  | _ => mkDeployment [] [InvalidOrderChangeBatch] []
  end.

(** *** Deploy *)

Lemma render_length identifiers :
  length (render identifiers) = length identifiers.
Proof. unfold render. apply length_imap. Qed.

(** The payload lists the identifiers in order, at the positions 1, 2, ... *)
Lemma render_lookup identifiers i :
  render identifiers !! i
  = (λ id, mkPlacement id (Z.of_nat i + 1)) <$> identifiers !! i.
Proof. unfold render. apply list_lookup_imap. Qed.

(** C4. Deploying the single modification from [[11, 22, 33]] to
    [[22, 33, 11]] applies the change, reports no error and issues exactly
    one request, whose payload is the after-sequence with the positions 1, 2
    and 3. *)
Theorem deploy_reorder_payload :
  let change :=
    ModificationChange
      (mkOrderedCollection [VNumber 11; VNumber 22; VNumber 33])
      (mkOrderedCollection [VNumber 22; VNumber 33; VNumber 11]) in
  deploy [change]
  = mkDeployment [change] []
      [[mkPlacement 22 1; mkPlacement 33 2; mkPlacement 11 3]].
Proof. reflexivity. Qed.

(** C5. A batch that is not exactly one change, or whose single change is
    not a modification, yields exactly one error for the batch, no applied
    change and no request. *)
Theorem deploy_rejects_batch changes :
  length changes ≠ 1%nat
  ∨ (∃ change, changes = [change] ∧ isModificationChange change = false) →
  deploy changes = mkDeployment [] [InvalidOrderChangeBatch] []
  ∧ length (errors (deploy changes)) = 1%nat
  ∧ length (appliedChanges (deploy changes)) = 0%nat
  ∧ length (requests (deploy changes)) = 0%nat.
Proof.
  intros Hshape.
  assert (deploy changes = mkDeployment [] [InvalidOrderChangeBatch] [])
    as ->; [|done].
  destruct Hshape as [Hlen|(change & -> & Hkind)].
  - by destruct changes as [|[| |] [|? ?]].
  - by destruct change.
Qed.

(** C6. A modification whose after-sequence has a member that is not of the
    identifier type yields exactly one error, no applied change and no
    request. *)
Theorem deploy_rejects_identifiers before after :
  (∃ member, member ∈ orderedSequence after
             ∧ memberIdentifier member = None) →
  deploy [ModificationChange before after]
  = mkDeployment [] [InvalidMemberIdentifier] []
  ∧ length (errors (deploy [ModificationChange before after])) = 1%nat
  ∧ length (appliedChanges (deploy [ModificationChange before after])) = 0%nat
  ∧ length (requests (deploy [ModificationChange before after])) = 0%nat.
Proof.
  intros (member & Hin & Hbad).
  assert (memberIdentifiers (orderedSequence after) = None) as Hnone.
  { apply eq_None_not_Some. unfold memberIdentifiers.
    rewrite mapM_is_Some, Forall_forall. intros Hall.
    specialize (Hall member Hin). cbv [compose] in Hall.
    rewrite Hbad in Hall. by destruct Hall. }
  unfold deploy. by rewrite Hnone.
Qed.

(** A valid modification is applied with one request, whatever its
    sequences are. *)
Lemma deploy_valid before after identifiers :
  memberIdentifiers (orderedSequence after) = Some identifiers →
  deploy [ModificationChange before after]
  = mkDeployment [ModificationChange before after] [] [render identifiers].
Proof. intros Hids. unfold deploy. by rewrite Hids. Qed.

(** *** The deploy fixtures of the automation test-suite *)

(** "should return an error if there are multiple order changes" and "if
    the order change is not modification". *)
Lemma deploy_rejects_batch_witness :
  let before := mkOrderedCollection [VNumber 11; VNumber 22; VNumber 33] in
  let after := mkOrderedCollection [VNumber 22; VNumber 33; VNumber 11] in
  let change := ModificationChange before after in
  deploy [change; change] = mkDeployment [] [InvalidOrderChangeBatch] []
  ∧ deploy [AdditionChange after] = mkDeployment [] [InvalidOrderChangeBatch] []
  ∧ deploy [] = mkDeployment [] [InvalidOrderChangeBatch] [].
Proof.
  intros before after change. split; [|split].
  - refine (proj1 (deploy_rejects_batch [change; change] _)).
    left. simpl. lia.
  - refine (proj1 (deploy_rejects_batch [AdditionChange after] _)).
    right. exists (AdditionChange after). split; reflexivity.
  - refine (proj1 (deploy_rejects_batch [] _)).
    left. simpl. lia.
Defined.

(** "should return an error if the ids are not numbers". *)
Lemma deploy_rejects_identifiers_witness :
  deploy
    [ModificationChange
       (mkOrderedCollection [VNumber 11; VNumber 22; VNumber 33])
       (mkOrderedCollection [VString "22"; VString "33"])]
  = mkDeployment [] [InvalidMemberIdentifier] [].
Proof.
  refine (proj1 (deploy_rejects_identifiers _ _ _)).
  exists (VString "22"). split; [|reflexivity].
  simpl. apply list_elem_of_here.
Defined.

End Reorder.
